(** * whoami: a shallow embedding of the diagnostic HTTP service

    The development follows the Go sources [app.go], [buffer_pool.go] and the
    metrics middleware: the content generator ([writeContent]), the pooled
    buffers ([GetPooledBuffer], [PooledBuffer.Close]), the data route
    ([dataHandler]), the health route ([healthHandler]) and the request
    accounting ([metricsMiddleware]).

    Part I holds the definitions, Part II the lemmas and theorems. *)

From Stdlib Require Import ZArith Lia Strings.Byte Strings.Ascii Strings.String.
From stdpp Require Import gmap strings list fin_maps.

Open Scope Z_scope.

(* ===================================================================== *)
(** * Part I: definitions                                                 *)
(* ===================================================================== *)

(** ** Go integers *)

(** A signed [bits]-wide integer keeps the low [bits] bits of the
    mathematical result, read in two's complement. *)
Definition wrap (bits z : Z) : Z :=
  (z + 2 ^ (bits - 1)) mod 2 ^ bits - 2 ^ (bits - 1).

Definition inRange (bits z : Z) : Prop :=
  - 2 ^ (bits - 1) <= z < 2 ^ (bits - 1).

(** [int64(z)]. *)
Definition int64 (z : Z) : Z := wrap 64 z.

(** Width of Go's [int]; the service is built for 64-bit targets. *)
Definition intSize : Z := 64.

(** [int(z)]. *)
Definition int (z : Z) : Z := wrap intSize z.

(** [uint32(r)], used by the rune comparisons of the byte buffer. *)
Definition uint32 (z : Z) : Z := z mod 2 ^ 32.

(** Result of running a piece of Go code: it returns, it panics, or the
    fuel given to a loop of the model ran out. *)
Inductive outcome (A : Type) : Type :=
| Returns (a : A)
| Panics (msg : string)
| OutOfFuel.

Arguments Returns {A} a.
Arguments Panics {A} msg.
Arguments OutOfFuel {A}.

(** ** Bytes, strings and runes *)

Definition rune : Type := Z.

(** [byte(z)]: the low eight bits. *)
Definition byteZ (z : Z) : byte :=
  default "000"%byte (Byte.of_N (Z.to_N (z mod 256))).

(** [len(s)] of a Go string (a byte sequence). *)
Definition len (s : string) : Z := Z.of_nat (String.length s).

(** [s[i]]: [None] stands for the index-out-of-range panic. *)
Definition index (s : string) (i : Z) : option byte :=
  if (0 <=? i) && (i <? len s)
  then byte_of_ascii <$> String.get (Z.to_nat i) s
  else None.

(** The boundary marker ['|']. *)
Definition marker : rune := 124.

(** [utf8.AppendRune] on an empty slice. *)
Definition utf8_AppendRune (r : rune) : list byte :=
  let i := uint32 r in
  if i <=? 127 then [byteZ r]
  else if i <=? 2047 then
    [byteZ (Z.lor 192 (Z.shiftr r 6)); byteZ (Z.lor 128 (Z.land r 63))]
  else
    let r' := if (1114111 <? i) || ((55296 <=? i) && (i <=? 57343))
              then 65533 else r in
    if (i <=? 65535) || (1114111 <? i) then
      [byteZ (Z.lor 224 (Z.shiftr r' 12));
       byteZ (Z.lor 128 (Z.land (Z.shiftr r' 6) 63));
       byteZ (Z.lor 128 (Z.land r' 63))]
    else
      [byteZ (Z.lor 240 (Z.shiftr r' 18));
       byteZ (Z.lor 128 (Z.land (Z.shiftr r' 12) 63));
       byteZ (Z.lor 128 (Z.land (Z.shiftr r' 6) 63));
       byteZ (Z.lor 128 (Z.land r' 63))].

(** ** bytes.Buffer, as its callers observe it: the unread bytes *)

Record Buffer : Type := mkBuffer { Bytes : list byte }.

Definition Buffer_Len (b : Buffer) : nat := length (Bytes b).

Definition Buffer_Reset (b : Buffer) : Buffer := mkBuffer [].

Definition Buffer_WriteByte (b : Buffer) (c : byte) : Buffer :=
  mkBuffer (Bytes b ++ [c]).

Definition Buffer_WriteRune (b : Buffer) (r : rune) : Buffer :=
  if uint32 r <? 128 then Buffer_WriteByte b (byteZ r)
  else mkBuffer (Bytes b ++ utf8_AppendRune r).

(** [type PooledBuffer struct { bytes.Buffer }] *)
Record PooledBuffer : Type := mkPooledBuffer { Buffer_of : Buffer }.

(** [type byteRuneWriter interface { io.ByteWriter; WriteRune(r rune) }];
    the errors of both methods are discarded by every caller. *)
Class byteRuneWriter (W : Type) : Type := {
  WriteByte : W -> byte -> W;
  WriteRune : W -> rune -> W
}.

#[export] Instance Buffer_byteRuneWriter : byteRuneWriter Buffer :=
  {| WriteByte := Buffer_WriteByte; WriteRune := Buffer_WriteRune |}.

#[export] Instance PooledBuffer_byteRuneWriter : byteRuneWriter PooledBuffer :=
  {| WriteByte := fun b c => mkPooledBuffer (Buffer_WriteByte (Buffer_of b) c);
     WriteRune := fun b r => mkPooledBuffer (Buffer_WriteRune (Buffer_of b) r) |}.

(** ** Content generator *)

Definition CHARSET : string := "-ABCDEFGHIJKLMNOPQRSTUVWXYZ"%string.

(** [for i := ...; i < bound; i++ { _ = w.WriteByte(CHARSET[i%len(CHARSET)]) }] *)
Fixpoint writeContent_for {W : Type} `{byteRuneWriter W}
  (fuel : nat) (i bound : Z) (w : W) : outcome W :=
  if i <? bound then
    match fuel with
    | O => OutOfFuel
    | S fuel' =>
        match index CHARSET (Z.rem i (len CHARSET)) with
        | None => Panics "index out of range"
        | Some c => writeContent_for fuel' (int (i + 1)) bound (WriteByte w c)
        end
    end
  else Returns w.

Definition writeContent {W : Type} `{byteRuneWriter W}
  (w : W) (length : Z) : outcome W :=
  if length <=? 0 then Returns w
  else
    let w := WriteRune w marker in
    match writeContent_for (Z.to_nat length) 1 (int (int length - 1)) w with
    | Returns w => Returns (if 1 <? length then WriteRune w marker else w)
    | Panics msg => Panics msg
    | OutOfFuel => OutOfFuel
    end.

(** [fillContent]: a fresh [bytes.Buffer]. *)
Definition fillContent (length : Z) : outcome Buffer :=
  writeContent (mkBuffer []) length.

(** ** Buffer pool ([buffer_pool.go]) *)

(** A [*PooledBuffer]. *)
Definition ptr : Type := nat.

(** The part of the process memory the data route works on: the allocated
    pooled buffers, the next free address, and the pointers currently held
    by [bufferPool] (a [sync.Pool]). *)
Record Mem : Type := mkMem {
  heap : gmap ptr PooledBuffer;
  next : ptr;
  bufferPool : list ptr
}.

(** Process start: nothing allocated, the pool empty. *)
Definition Mem_init : Mem := mkMem ∅ 0%nat [].

(** [bufferPool.New]: [new(PooledBuffer)]. *)
Definition bufferPool_New (m : Mem) : ptr * Mem :=
  (next m,
   mkMem (<[next m := mkPooledBuffer (mkBuffer [])]> (heap m))
         (S (next m)) (bufferPool m)).

(** [bufferPool.Get()]: any pooled item may be handed out, and the pool may
    as well act as if it were empty; [choice] is the runtime's pick. *)
Definition bufferPool_Get (choice : option nat) (m : Mem) : ptr * Mem :=
  match choice ≫= (fun k => bufferPool m !! k) with
  | Some p =>
      (p, mkMem (heap m) (next m) (delete (default 0%nat choice) (bufferPool m)))
  | None => bufferPool_New m
  end.

(** [bufferPool.Put(b)]. *)
Definition bufferPool_Put (b : ptr) (m : Mem) : Mem :=
  mkMem (heap m) (next m) (b :: bufferPool m).

(** The runtime may drop a pooled item at any time. *)
Definition bufferPool_evict (k : nat) (m : Mem) : Mem :=
  mkMem (heap m) (next m) (delete k (bufferPool m)).

(** [var bufferPoolProfile = dummyProfile{}]: both methods do nothing. *)
Definition dummyProfile_Add (v : ptr) (skip : Z) (m : Mem) : Mem := m.
Definition dummyProfile_Remove (v : ptr) (m : Mem) : Mem := m.

Definition GetPooledBuffer (choice : option nat) (m : Mem) : ptr * Mem :=
  let '(b, m) := bufferPool_Get choice m in
  let m := dummyProfile_Add b 1 m in
  (b, m).

(** [b.Reset()] through the pointer. *)
Definition PooledBuffer_Reset (b : ptr) (m : Mem) : Mem :=
  mkMem (alter (fun pb => mkPooledBuffer (Buffer_Reset (Buffer_of pb))) b (heap m))
        (next m) (bufferPool m).

(** [func (b *PooledBuffer) Close() error] *)
Definition Close (b : ptr) (m : Mem) : Mem :=
  let m := PooledBuffer_Reset b m in
  let m := dummyProfile_Remove b m in
  bufferPool_Put b m.

(** [b.Len()] and [b.Bytes()] through the pointer. *)
Definition Len (b : ptr) (m : Mem) : option nat :=
  (fun pb => Buffer_Len (Buffer_of pb)) <$> heap m !! b.

Definition BytesAt (b : ptr) (m : Mem) : option (list byte) :=
  (fun pb => Bytes (Buffer_of pb)) <$> heap m !! b.

Definition fillContentPooled (choice : option nat) (length : Z) (m : Mem)
  : outcome (ptr * Mem) :=
  let '(b, m) := GetPooledBuffer choice m in
  match heap m !! b with
  | None => Panics "nil pointer dereference"
  | Some pb =>
      match writeContent pb length with
      | Returns pb' => Returns (b, mkMem (<[b := pb']> (heap m)) (next m) (bufferPool m))
      | Panics msg => Panics msg
      | OutOfFuel => OutOfFuel
      end
  end.

(** ** Units *)

(** [const ( _ = iota; KB int64 = 1 << (10 * iota); MB; GB; TB )] *)
Definition unitConst (iota : Z) : Z := int64 (Z.shiftl 1 (10 * iota)).
Definition KB : Z := unitConst 1.
Definition MB : Z := unitConst 2.
Definition GB : Z := unitConst 3.
Definition TB : Z := unitConst 4.

(** ** The library functions the handlers call *)

Inductive NumError : Type := ErrSyntax | ErrRange.

Definition maxUint64 : Z := 2 ^ 64 - 1.

Definition byteOf (c : ascii) : Z := Z.of_N (N_of_ascii c).

(** The digit loop of [strconv.ParseUint(s, 10, 64)]. *)
Fixpoint ParseUint_digits (s : string) (n : Z) : Z * option NumError :=
  match s with
  | EmptyString => (n, None)
  | String c s' =>
      if (48 <=? byteOf c) && (byteOf c <=? 57) then
        let d := byteOf c - 48 in
        if maxUint64 / 10 + 1 <=? n then (maxUint64, Some ErrRange)
        else
          let n := n * 10 in
          let n1 := (n + d) mod 2 ^ 64 in
          if (n1 <? n) || (maxUint64 <? n1) then (maxUint64, Some ErrRange)
          else ParseUint_digits s' n1
      else (0, Some ErrSyntax)
  end.

Definition ParseUint (s : string) : Z * option NumError :=
  match s with
  | EmptyString => (0, Some ErrSyntax)
  | _ => ParseUint_digits s 0
  end.

(** [strconv.ParseInt(s, 10, 64)] *)
Definition ParseInt (s : string) : Z * option NumError :=
  match s with
  | EmptyString => (0, Some ErrSyntax)
  | String c rest =>
      let neg := Ascii.eqb c "-" in
      let s' := if Ascii.eqb c "+" || neg then rest else s in
      match ParseUint s' with
      | (_, Some ErrSyntax) => (0, Some ErrSyntax)
      | (un, _) =>
          let cutoff := 2 ^ 63 in
          if negb neg && (cutoff <=? un) then (cutoff - 1, Some ErrRange)
          else if neg && (cutoff <? un) then (- cutoff, Some ErrRange)
          else
            let n := int64 un in
            (if neg then int64 (- n) else n, None)
      end
  end.

(** [strconv.ParseBool] *)
Definition ParseBool (str : string) : bool * option NumError :=
  if bool_decide (str ∈ ["1"; "t"; "T"; "true"; "TRUE"; "True"]%string)
  then (true, None)
  else if bool_decide (str ∈ ["0"; "f"; "F"; "false"; "FALSE"; "False"]%string)
  then (false, None)
  else (false, Some ErrSyntax).

(** [url.Values] and its [Get]. *)
Definition Values_Get (v : gmap string (list string)) (key : string) : string :=
  match v !! key with
  | Some (x :: _) => x
  | _ => ""%string
  end.

Definition isASCII (s : string) : bool :=
  forallb (fun c => byteOf c <? 128) (list_ascii_of_string s).

Definition lowerASCII (c : ascii) : ascii :=
  if (65 <=? byteOf c) && (byteOf c <=? 90)
  then ascii_of_N (N_of_ascii c + 32)
  else c.

Fixpoint mapASCII (f : ascii -> ascii) (s : string) : string :=
  match s with
  | EmptyString => EmptyString
  | String c s' => String (f c) (mapASCII f s')
  end.

(** What the handlers exchange with the HTTP library and the console. *)
Inductive Event : Type :=
| Header_Add (key value : string)
| WriteHeader (code : Z)
| http_Error (msg : string) (code : Z)
| http_ServeContent (name : string) (content : list byte)
| ResponseWriter_Write (content : list byte)
| fmt_Printf (format : string) (arg : Z).

(** The request as the handlers read it.  [reparsedURL] is the [u] of
    [u, _ := url.Parse(r.URL.String())], the URL of the request written
    out and parsed again: [None] is the nil [*url.URL] that [url.Parse]
    returns together with the error the handler discards, [Some q] a URL
    whose [Query()] is [q]. *)
Record Request : Type := mkRequest {
  Method : string;
  reparsedURL : option (gmap string (list string));
  Body : list byte
}.

(** [u.Query()] for a [*url.URL] that may be nil: the method reads
    [u.RawQuery], and on a nil receiver that is a nil pointer
    dereference. *)
Definition URL_Query (u : option (gmap string (list string)))
  : outcome (gmap string (list string)) :=
  match u with
  | Some q => Returns q
  | None =>
      Panics "runtime error: invalid memory address or nil pointer dereference"
  end.

(** What the connection does with the one [Write] of [io.Copy]: the number
    of bytes it takes (never more than it is given) and its error. *)
Record Transport : Type := mkTransport {
  taken : nat;
  failure : option string
}.

(** [type healthState struct { StatusCode int }] *)
Record healthState : Type := mkHealthState { StatusCode : Z }.

(** [var currentHealthState = healthState{http.StatusOK}] *)
Definition currentHealthState_init : healthState := mkHealthState 200.

(** [io.Copy(w, content)]: [content] is a [WriterTo], so the copy is one
    [Write] of the unread bytes, after which the buffer is advanced or
    reset. *)
Definition io_Copy (tr : Transport) (content : ptr) (m : Mem)
  : list Event * option string * Mem :=
  match heap m !! content with
  | None => ([], None, m)
  | Some pb =>
      let bs := Bytes (Buffer_of pb) in
      if (0 <? length bs)%nat then
        let n := Nat.min (taken tr) (length bs) in
        let rest := mkPooledBuffer (mkBuffer (drop n bs)) in
        let advanced := mkMem (<[content := rest]> (heap m)) (next m) (bufferPool m) in
        match failure tr with
        | Some e => ([ResponseWriter_Write bs], Some e, advanced)
        | None =>
            if (n =? length bs)%nat
            then ([ResponseWriter_Write bs], None, PooledBuffer_Reset content m)
            else ([ResponseWriter_Write bs], Some "short write"%string, advanced)
        end
      else ([], None, PooledBuffer_Reset content m)
  end.

Section Handlers.

(** [strings.Map(unicode.ToLower, s)], the path [strings.ToLower] takes
    for a string with a byte outside ASCII; its tables belong to the
    library. *)
Variable unicode_ToLower_Map : string -> string.

(** [json.NewDecoder(body).Decode(&statusCode)] for an [int] target:
    the decoded value, or the error's text. *)
Variable json_Decode_int : list byte -> Z + string.

(** [strings.ToLower] *)
Definition strings_ToLower (s : string) : string :=
  if isASCII s then mapASCII lowerASCII s else unicode_ToLower_Map s.

(** Lines 119-137 of [dataHandler]: the byte count handed to the
    generator. *)
Definition dataHandler_size (queryParams : gmap string (list string)) : Z :=
  let '(size, err) := ParseInt (Values_Get queryParams "size") in
  let size := if err is Some _ then 1 else size in
  let size := if size <? 0 then 0 else size in
  let unit := Values_Get queryParams "unit" in
  let lower := strings_ToLower unit in
  if String.eqb lower "kb" then int64 (size * KB)
  else if String.eqb lower "mb" then int64 (size * MB)
  else if String.eqb lower "gb" then int64 (size * GB)
  else if String.eqb lower "tb" then int64 (size * TB)
  else size.

(** [func dataHandler(w http.ResponseWriter, r *http.Request)] *)
Definition dataHandler (choice : option nat) (tr : Transport)
  (r : Request) (m : Mem) : outcome (list Event * Mem) :=
  let u := reparsedURL r in
  match URL_Query u with
  | Returns queryParams =>
      let size := dataHandler_size queryParams in
      let '(attachment, err) := ParseBool (Values_Get queryParams "attachment") in
      let attachment := if err is Some _ then false else attachment in
      match fillContentPooled choice size m with
      | Returns (content, m) =>
          (* defer content.Close() *)
          if attachment then
            Returns ([Header_Add "Content-Disposition" "Attachment";
                      http_ServeContent "data.txt"
                        (default [] (BytesAt content m))],
                     Close content m)
          else
            let '(events, err, m) := io_Copy tr content m in
            match err with
            | Some e => Returns (events ++ [http_Error e 500], Close content m)
            | None => Returns (events, Close content m)
            end
      | Panics msg => Panics msg
      | OutOfFuel => OutOfFuel
      end
  | Panics msg => Panics msg
  | OutOfFuel => OutOfFuel
  end.

(** [healthHandler]; the write happens under [mutexHealthState.Lock()], the
    read under [RLock()], so each call touches the state in one indivisible
    step. *)
Definition healthHandler (req : Request) (st : healthState)
  : list Event * healthState :=
  if String.eqb (Method req) "POST" then
    match json_Decode_int (Body req) with
    | inr err => ([http_Error err 400], st)
    | inl statusCode =>
        ([fmt_Printf "Update health check status code [%d]\n" statusCode],
         mkHealthState statusCode)
    end
  else ([WriteHeader (StatusCode st)], st).

(** A run of the health route: the requests are served one after the other
    in the order their critical sections are entered. *)
Fixpoint serve (reqs : list Request) (st : healthState)
  : list (list Event) * healthState :=
  match reqs with
  | [] => ([], st)
  | r :: reqs =>
      let '(ev, st) := healthHandler r st in
      let '(evs, st) := serve reqs st in
      (ev :: evs, st)
  end.

End Handlers.

(** ** Request metrics (the metrics middleware) *)

(** Modelled from the spec: the counter type [expvarInt] and its method
    [Add] are declared outside the files at hand.  Section 4.4 has the
    counters updated by atomic operations, [Add(delta)] returning the new
    value; the counter is a mathematical integer here. *)
Record expvarInt : Type := mkExpvarInt { Value : Z }.

Definition expvarInt_Add (v : expvarInt) (delta : Z) : Z * expvarInt :=
  (Value v + delta, mkExpvarInt (Value v + delta)).

(** Modelled from the spec: [expvarMaxInt] and its method [Update] are
    declared outside the files at hand.  Section 4.4: [UpdateMax(candidate)]
    atomically raises the stored maximum to [candidate] if and only if
    [candidate] exceeds the current stored maximum. *)
Record expvarMaxInt : Type := mkExpvarMaxInt { MaxValue : Z }.

Definition expvarMaxInt_Update (v : expvarMaxInt) (candidate : Z) : expvarMaxInt :=
  if MaxValue v <? candidate then mkExpvarMaxInt candidate else v.

(** Where a caller stands inside [metricsMiddleware.ServeHTTP]. *)
Inductive Point : Type :=
| Idle                    (* before [m.onHandleRequestStart()] *)
| Started (count : Z)     (* after [count := concurrentRequestCount.Add(1)] *)
| Counted (count : Z)     (* after [totalRequestCount.Add(1)] *)
| Handling                (* after [maxConcurrentRequestCount.Update(count)]:
                             [onHandleRequestStart] has returned *)
| Deferred.               (* [m.nextHandler] returned or panicked; the
                             deferred [m.onHandleRequestFinish()] is due *)

(** A caller: a goroutine serving [todo] more requests one after the
    other, with the numbers of its calls of [onHandleRequestStart] and
    [onHandleRequestFinish] that have returned. *)
Record Caller : Type := mkCaller {
  at_point : Point;
  todo : nat;
  starts : nat;
  finishes : nat
}.

(** The three package-level counters, the callers, and two records kept
    for the statements only: the highest value the in-flight counter ever
    held and the arguments [Update] was called with, latest first. *)
Record Metrics : Type := mkMetrics {
  concurrentRequestCount : expvarInt;
  totalRequestCount : expvarInt;
  maxConcurrentRequestCount : expvarMaxInt;
  callers : list Caller;
  peak : Z;
  updates : list Z
}.

(** [M] callers, [K] requests each, all counters zero. *)
Definition Metrics_init (M K : nat) : Metrics :=
  mkMetrics (mkExpvarInt 0) (mkExpvarInt 0) (mkExpvarMaxInt 0)
            (replicate M (mkCaller Idle K 0 0)) 0 [].

(** Caller [t] performs its next atomic action; a caller that is out of
    range or has served all its requests leaves everything as it is. *)
Definition ServeHTTP_step (t : nat) (w : Metrics) : Metrics :=
  match callers w !! t with
  | None => w
  | Some c =>
      match at_point c with
      | Idle =>
          match todo c with
          | O => w
          | S k =>
              let '(count, conc) := expvarInt_Add (concurrentRequestCount w) 1 in
              mkMetrics conc (totalRequestCount w) (maxConcurrentRequestCount w)
                (<[t := mkCaller (Started count) k (starts c) (finishes c)]> (callers w))
                (Z.max (peak w) (Value conc)) (updates w)
          end
      | Started count =>
          let '(_, total) := expvarInt_Add (totalRequestCount w) 1 in
          mkMetrics (concurrentRequestCount w) total (maxConcurrentRequestCount w)
            (<[t := mkCaller (Counted count) (todo c) (starts c) (finishes c)]> (callers w))
            (peak w) (updates w)
      | Counted count =>
          mkMetrics (concurrentRequestCount w) (totalRequestCount w)
            (expvarMaxInt_Update (maxConcurrentRequestCount w) count)
            (<[t := mkCaller Handling (todo c) (S (starts c)) (finishes c)]> (callers w))
            (peak w) (count :: updates w)
      | Handling =>
          mkMetrics (concurrentRequestCount w) (totalRequestCount w)
            (maxConcurrentRequestCount w)
            (<[t := mkCaller Deferred (todo c) (starts c) (finishes c)]> (callers w))
            (peak w) (updates w)
      | Deferred =>
          let '(_, conc) := expvarInt_Add (concurrentRequestCount w) (-1) in
          mkMetrics conc (totalRequestCount w) (maxConcurrentRequestCount w)
            (<[t := mkCaller Idle (todo c) (starts c) (S (finishes c))]> (callers w))
            (Z.max (peak w) (Value conc)) (updates w)
      end
  end.

(** An interleaving is the list of the callers' turns. *)
Definition run (sched : list nat) (w : Metrics) : Metrics :=
  fold_left (fun w t => ServeHTTP_step t w) sched w.

(** Readings of a state used by the statements. *)
Definition inFlight (w : Metrics) : Z := Value (concurrentRequestCount w).
Definition total (w : Metrics) : Z := Value (totalRequestCount w).
Definition maxInFlight (w : Metrics) : Z := MaxValue (maxConcurrentRequestCount w).

Fixpoint sumZ (f : Caller -> Z) (l : list Caller) : Z :=
  match l with
  | [] => 0
  | c :: l => f c + sumZ f l
  end.

Definition sumOver (f : Caller -> Z) (w : Metrics) : Z := sumZ f (callers w).

Definition completedStarts (w : Metrics) : Z :=
  sumOver (fun c => Z.of_nat (starts c)) w.

Definition completedFinishes (w : Metrics) : Z :=
  sumOver (fun c => Z.of_nat (finishes c)) w.

(** Has the caller's current [onHandleRequestStart] incremented the
    in-flight counter without having returned yet? *)
Definition midStart (c : Caller) : bool :=
  match at_point c with
  | Started _ | Counted _ => true
  | _ => false
  end.

(** Calls of [onHandleRequestStart] that are under way. *)
Definition startsInProgress (w : Metrics) : Z :=
  sumOver (fun c => if midStart c then 1 else 0) w.

(** The caller has served all its requests. *)
Definition callerDone (c : Caller) : bool :=
  match at_point c, todo c with
  | Idle, O => true
  | _, _ => false
  end.

(** Every caller has served all its requests. *)
Definition allDone (w : Metrics) : bool := forallb callerDone (callers w).

(** No call of [onHandleRequestStart] is under way. *)
Definition quiescent (w : Metrics) : bool :=
  forallb (fun c => negb (midStart c)) (callers w).

(** ** Vocabulary of the statements about the pool *)

(** What the users of the pool do to the memory: a request acquires and
    fills a buffer, copies it to its connection, and closes it; the runtime
    may drop pooled items in between.  Only a buffer that is held (allocated
    and not in the pool) is copied or closed, as in [dataHandler]. *)
Inductive reachable : Mem -> Prop :=
| reach_init : reachable Mem_init
| reach_fill (choice : option nat) (length : Z) (m : Mem) (b : ptr) (m' : Mem) :
    reachable m ->
    fillContentPooled choice length m = Returns (b, m') ->
    reachable m'
| reach_copy (tr : Transport) (b : ptr) (m : Mem) :
    reachable m -> b ∉ bufferPool m ->
    reachable (io_Copy tr b m).2
| reach_close (b : ptr) (m : Mem) :
    reachable m -> b ∉ bufferPool m -> is_Some (heap m !! b) ->
    reachable (Close b m)
| reach_evict (k : nat) (m : Mem) :
    reachable m -> reachable (bufferPool_evict k m).

(** The pool holds each pointer once, every pooled buffer is empty, and
    the allocator has not yet handed out the addresses from [next] on. *)
Definition pool_ok (m : Mem) : Prop :=
  NoDup (bufferPool m)
  /\ (forall p, p ∈ bufferPool m -> BytesAt p m = Some [])
  /\ (forall p, is_Some (heap m !! p) -> (p < next m)%nat).

(** ** Vocabulary of the statements about the data route *)

(** The integer a text denotes in decimal notation: an optional sign and
    at least one digit, nothing else. *)
Fixpoint digitsValue (s : string) (acc : Z) : option Z :=
  match s with
  | EmptyString => Some acc
  | String c s' =>
      if (48 <=? byteOf c) && (byteOf c <=? 57)
      then digitsValue s' (acc * 10 + (byteOf c - 48))
      else None
  end.

Definition unsignedDecimal (s : string) : option Z :=
  match s with
  | EmptyString => None
  | _ => digitsValue s 0
  end.

Definition decimal (s : string) : option Z :=
  match s with
  | EmptyString => None
  | String c rest =>
      if Ascii.eqb c "-" then Z.opp <$> unsignedDecimal rest
      else if Ascii.eqb c "+" then unsignedDecimal rest
      else unsignedDecimal s
  end.

(** The spec's words for the size: parsed from the query parameter,
    defaulting to 1 byte when it is missing or malformed (not a decimal
    integer of 64 bits), clamped to at least 0. *)
Definition sizeBase (text : string) : Z :=
  match decimal text with
  | Some v =>
      if (- 2 ^ 63 <=? v) && (v <? 2 ^ 63)
      then (if v <? 0 then 0 else v)
      else 1
  | None => 1
  end.

(** The spec's words for the units: 1024-based multipliers. *)
Definition unitMultiplier (lower : string) : option Z :=
  if String.eqb lower "kb" then Some 1024
  else if String.eqb lower "mb" then Some (1024 ^ 2)
  else if String.eqb lower "gb" then Some (1024 ^ 3)
  else if String.eqb lower "tb" then Some (1024 ^ 4)
  else None.

(** Equality of two texts up to the case of their ASCII letters. *)
Fixpoint sameUpToCase (u t : string) : bool :=
  match u, t with
  | EmptyString, EmptyString => true
  | String a u', String b t' =>
      Ascii.eqb (lowerASCII a) (lowerASCII b) && sameUpToCase u' t'
  | _, _ => false
  end.

(** The bytes a handler hands to the HTTP library as the response
    content. *)
Definition served (events : list Event) : list byte :=
  concat ((fun e => match e with
                    | http_ServeContent _ content => content
                    | ResponseWriter_Write content => content
                    | _ => []
                    end) <$> events).

(** What [dataHandler] makes of the result of [ParseInt]: 1 on any error,
    0 for a negative value. *)
Definition clampParsed (r : Z * option NumError) : Z :=
  let '(size, err) := r in
  let size := if err is Some _ then 1 else size in
  if size <? 0 then 0 else size.

(** A query with a size and a unit, for the examples. *)
Definition sizeUnitQuery (size unit : string) : gmap string (list string) :=
  <["size"%string := [size]]> (<["unit"%string := [unit]]> ∅).

(** A stand-in for the JSON decoder in the examples: it takes a decimal
    integer of 64 bits and rejects every other body. *)
Definition decodeDecimal (body : list byte) : Z + string :=
  match ParseInt (string_of_list_byte body) with
  | (v, None) => inl v
  | (_, Some _) => inr "invalid character"%string
  end.


(** ** Vocabulary of the statements about the metrics *)

(** The highest value the in-flight counter holds in the states a run
    goes through, the first and the last included. *)
Fixpoint peakAlong (sched : list nat) (w : Metrics) : Z :=
  match sched with
  | [] => inFlight w
  | t :: sched => Z.max (inFlight w) (peakAlong sched (ServeHTTP_step t w))
  end.

(** One sequence of [Update] calls on the maximum. *)
Definition updateAll (v : expvarMaxInt) (candidates : list Z) : expvarMaxInt :=
  fold_left expvarMaxInt_Update candidates v.

(** Is the caller between its increment and its decrement of the in-flight
    counter? *)
Definition inFlightOf (c : Caller) : Z :=
  match at_point c with
  | Idle => 0
  | _ => 1
  end.

(** The caller's additions to the total counter. *)
Definition countedOf (c : Caller) : Z :=
  Z.of_nat (finishes c)
  + match at_point c with
    | Counted _ | Handling | Deferred => 1
    | _ => 0
    end.

(** The value a caller still has to pass to [Update]. *)
Definition pending (c : Caller) : option Z :=
  match at_point c with
  | Started k | Counted k => Some k
  | _ => None
  end.

(** The atomic actions a caller has still to perform. *)
Definition actionsLeft (c : Caller) : Z :=
  5 * Z.of_nat (todo c)
  + match at_point c with
    | Idle => 0
    | Started _ => 4
    | Counted _ => 3
    | Handling => 2
    | Deferred => 1
    end.

(** A caller that serves [K] requests in all. *)
Definition caller_ok (K : nat) (c : Caller) : Prop :=
  Z.of_nat (starts c)
  = Z.of_nat (finishes c)
    + match at_point c with Handling | Deferred => 1 | _ => 0 end
  /\ Z.of_nat (todo c) + Z.of_nat (finishes c) + inFlightOf c = Z.of_nat K.

(** What holds in every state of the middleware with [M] callers of [K]
    requests each. *)
Definition Inv (M K : nat) (w : Metrics) : Prop :=
  length (callers w) = M
  /\ Forall (caller_ok K) (callers w)
  /\ inFlight w = sumOver inFlightOf w
  /\ total w = sumOver countedOf w
  /\ maxInFlight w <= peak w
  /\ inFlight w <= peak w
  /\ Forall (fun c => forall k, pending c = Some k -> k <= peak w) (callers w)
  /\ (peak w = maxInFlight w
      \/ exists i c, callers w !! i = Some c /\ pending c = Some (peak w))
  /\ Forall (fun a => a <= maxInFlight w) (updates w).

(** ** Vocabulary of the statements about the generator *)

(** The marker as a byte. *)
Definition markerByte : byte := "|"%byte.

(** The character of the set selected by position [i]. *)
Definition charAt (i : Z) : byte :=
  default "-"%byte (index CHARSET (i mod 27)).

(** The bytes the generator is expected to append for a length [L]. *)
Definition pattern (L : Z) : list byte :=
  if L <=? 0 then []
  else if L =? 1 then [markerByte]
  else markerByte :: (charAt <$> seqZ 1 (L - 2)) ++ [markerByte].

(** Forget the panic message and the fuel: the value a call returned. *)
Definition returned {A : Type} (o : outcome A) : option A :=
  match o with Returns a => Some a | _ => None end.

(* ===================================================================== *)
(** * Part I, continued: the rest of the service                          *)
(* ===================================================================== *)

(** ** Readings of a run of the health route *)

(** The codes the requests of a run wrote, in order. *)
Definition codesWritten (decode : list byte -> Z + string)
  (reqs : list Request) : list Z :=
  omap (fun r =>
          if String.eqb (Method r) "POST"
          then (if decode (Body r) is inl code then Some code else None)
          else None) reqs.

(** ** The middleware, one request at a time *)

(** The three package-level counters. *)
Record Counters : Type := mkCounters {
  concurrent : expvarInt;
  totalCount : expvarInt;
  maxConcurrent : expvarMaxInt
}.

Definition Counters_zero : Counters :=
  mkCounters (mkExpvarInt 0) (mkExpvarInt 0) (mkExpvarMaxInt 0).

Definition countersOf (w : Metrics) : Counters :=
  mkCounters (concurrentRequestCount w) (totalRequestCount w)
             (maxConcurrentRequestCount w).

(** [func (m metricsMiddleware) onHandleRequestStart()] *)
Definition onHandleRequestStart (c : Counters) : Counters :=
  let '(count, conc) := expvarInt_Add (concurrent c) 1 in
  let '(_, tot) := expvarInt_Add (totalCount c) 1 in
  mkCounters conc tot (expvarMaxInt_Update (maxConcurrent c) count).

(** [func (m metricsMiddleware) onHandleRequestFinish()] *)
Definition onHandleRequestFinish (c : Counters) : Counters :=
  let '(_, conc) := expvarInt_Add (concurrent c) (-1) in
  mkCounters conc (totalCount c) (maxConcurrent c).

(** [func (m metricsMiddleware) ServeHTTP(writer, request)] with no other
    request under way: the deferred finish runs whether [nextHandler]
    returns or panics, and the handler's outcome is passed on. *)
Definition ServeHTTP {S R : Type} (nextHandler : S -> outcome (R * S))
  (s : S) (c : Counters) : outcome (R * S) * Counters :=
  let c := onHandleRequestStart c in
  let result := nextHandler s in
  (result, onHandleRequestFinish c).

(** [func wrapHandler(handler http.HandlerFunc) http.HandlerFunc] *)
Definition wrapHandler {S R : Type} (metricsEnabled : bool)
  (handler : S -> outcome (R * S)) (s : S) (c : Counters)
  : outcome (R * S) * Counters :=
  if negb metricsEnabled then (handler s, c)
  else ServeHTTP handler s c.

(** ** The echo route ([echoHandler], [printBinary]) *)

Definition newline : string := String "010"%char EmptyString.

Definition digitOf (n : nat) : ascii := ascii_of_nat (48 + n).

(** The verb [%d] of [fmt.Printf] on a byte: its decimal digits, no
    padding. *)
Definition formatByte (b : byte) : string :=
  let n := Byte.to_nat b in
  if (n <? 10)%nat then String (digitOf n) EmptyString
  else if (n <? 100)%nat then
    String (digitOf (n / 10)) (String (digitOf (n mod 10)) EmptyString)
  else
    String (digitOf (n / 100))
      (String (digitOf (n / 10 mod 10)) (String (digitOf (n mod 10)) EmptyString)).

(** [for n := 0; n < len(s); n++ { fmt.Printf("%d,", s[n]) }] *)
Fixpoint printBinary_for (s : list byte) : string :=
  match s with
  | [] => EmptyString
  | b :: s => formatByte b +:+ "," +:+ printBinary_for s
  end.

(** [func printBinary(s []byte)]: what it writes to the standard output. *)
Definition printBinary (s : list byte) : string :=
  "Received b:" +:+ printBinary_for s +:+ newline.

(** What the connection does next, as far as it is known: a message comes
    in (and the write that echoes it fails or not), or the read fails. *)
Inductive ConnEvent : Type :=
| conn_Message (messageType : Z) (p : list byte) (writeError : bool)
| conn_ReadError.

(** What [echoHandler] does to the log, the standard output and the
    connection. *)
Inductive EchoEvent : Type :=
| log_Println (err : string)
| stdout_Write (text : string)
| conn_WriteMessage (messageType : Z) (p : list byte).

(** The [for] loop of [echoHandler] on a known stretch of the connection:
    the events so far, and whether the handler has returned. *)
Fixpoint echoHandler_for (script : list ConnEvent) : list EchoEvent * bool :=
  match script with
  | [] => ([], false)
  | conn_ReadError :: _ => ([], true)
  | conn_Message messageType p writeError :: script =>
      let events := [stdout_Write (printBinary p); conn_WriteMessage messageType p] in
      if writeError then (events, true)
      else
        let '(more, returned) := echoHandler_for script in
        (events ++ more, returned)
  end.

(** [func echoHandler(w, r)]; [upgradeError] is the error of
    [upgrader.Upgrade], if any. *)
Definition echoHandler (upgradeError : option string) (script : list ConnEvent)
  : list EchoEvent * bool :=
  match upgradeError with
  | Some err => ([log_Println err], true)
  | None => echoHandler_for script
  end.

(** The messages of a stretch of the connection, and the messages a
    handler wrote back. *)
Definition messagesOf (script : list ConnEvent) : list (Z * list byte) :=
  omap (fun e => if e is conn_Message mt p _ then Some (mt, p) else None) script.

Definition writesOf (events : list EchoEvent) : list (Z * list byte) :=
  omap (fun e => if e is conn_WriteMessage mt p then Some (mt, p) else None) events.

(** Does the stretch hold a failing read or a failing write? *)
Definition breaksOff (e : ConnEvent) : bool :=
  match e with
  | conn_Message _ _ writeError => writeError
  | conn_ReadError => true
  end.

(** Reading a printed line back: the fields before each comma, as
    bytes. *)
Fixpoint readFields (text field : string) : option (list byte) :=
  match text with
  | EmptyString => None
  | String c rest =>
      if Ascii.eqb c "," then
        match ParseUint field with
        | (v, None) =>
            match Byte.of_N (Z.to_N v), readFields rest EmptyString with
            | Some b, Some bs => Some (b :: bs)
            | _, _ => None
            end
        | (_, Some _) => None
        end
      else if Ascii.eqb c "010" then
        (match field, rest with
         | EmptyString, EmptyString => Some []
         | _, _ => None
         end)
      else readFields rest (field +:+ String c EmptyString)
  end.

(** ** The identity route ([whoamiHandler], [writeHostInfo]) *)

(** A [net.Addr]: an [*net.IPNet] or an [*net.IPAddr] with its IP ([None]
    for a nil one), or an address of another kind. *)
Inductive Addr : Type :=
| IPNet (ip : option (list byte))
| IPAddr (ip : option (list byte))
| OtherAddr.

(** What the operating system reports: [os.Hostname()] and, for every
    interface of [net.Interfaces()], its [Addrs()]. *)
Record Host : Type := mkHost {
  os_Hostname : string;
  net_Interfaces : list (list Addr)
}.

(** The [switch v := addr.(type)] of both handlers. *)
Definition ipOf (addr : Addr) : option (list byte) :=
  match addr with
  | IPNet ip => ip
  | IPAddr ip => ip
  | OtherAddr => None
  end.

(** [var hostInfo string] and [var hostInfoOnce = sync.Once{}]. *)
Record HostInfo : Type := mkHostInfo {
  hostInfo : string;
  hostInfoOnce : bool
}.

Definition HostInfo_init : HostInfo := mkHostInfo EmptyString false.

Inductive WhoamiEvent : Type :=
| time_Sleep (duration : Z)
| fmt_Fprint (text : string)
| Request_Write
| whoami_http_Error (msg : string) (code : Z).

(** One request of the identity route, as its environment sees it:
    what the operating system reports while the request is served, the [u]
    of [u, _ := url.Parse(req.URL.String())] (as [reparsedURL] above),
    [req.RemoteAddr], and the error of [req.Write(w)], if any. *)
Record WhoamiRequest : Type := mkWhoamiRequest {
  host : Host;
  whoamiURL : option (gmap string (list string));
  RemoteAddr : string;
  writeError : option string
}.

Section Whoami.

(** How [fmt] prints a [net.IP], nil or not. *)
Variable IP_String : option (list byte) -> string.

(** [time.ParseDuration]. *)
Variable ParseDuration : string -> option Z.

(** [func writeHostInfo(w io.Writer)] *)
Definition writeHostInfo (h : Host) : string :=
  "Hostname: " +:+ os_Hostname h +:+ newline
  +:+ foldr (fun addrs text =>
               foldr (fun addr text =>
                        "IP: " +:+ IP_String (ipOf addr) +:+ newline +:+ text)
                     text addrs)
            EmptyString (net_Interfaces h).

(** [func whoamiHandler(w, req)] *)
Definition whoamiHandler (req : WhoamiRequest) (st : HostInfo)
  : outcome (list WhoamiEvent * HostInfo) :=
  let u := whoamiURL req in
  match URL_Query u with
  | Returns queryParams =>
      let wait := Values_Get queryParams "wait" in
      let slept :=
        if 0 <? len wait then
          match ParseDuration wait with
          | Some duration => [time_Sleep duration]
          | None => []
          end
        else [] in
      let st := if hostInfoOnce st then st
                else mkHostInfo (writeHostInfo (host req)) true in
      Returns
        (slept
         ++ [fmt_Fprint (hostInfo st);
             fmt_Fprint ("RemoteAddr: " +:+ RemoteAddr req +:+ newline);
             Request_Write]
         ++ (if writeError req is Some e then [whoami_http_Error e 500] else []),
         st)
  | Panics msg => Panics msg
  | OutOfFuel => OutOfFuel
  end.

(** The requests of the identity route, in the order in which they reach
    [hostInfoOnce.Do], which lets one caller in at a time until the first
    has finished.  A handler that panics does so before it touches
    [hostInfo] or [hostInfoOnce], so the next request finds them as they
    were; the server goes on to the next request. *)
Fixpoint whoamiServe (reqs : list WhoamiRequest) (st : HostInfo)
  : list (outcome (list WhoamiEvent)) * HostInfo :=
  match reqs with
  | [] => ([], st)
  | r :: reqs =>
      match whoamiHandler r st with
      | Returns (ev, st) =>
          let '(evs, st) := whoamiServe reqs st in (Returns ev :: evs, st)
      | Panics msg =>
          let '(evs, st) := whoamiServe reqs st in (Panics msg :: evs, st)
      | OutOfFuel =>
          let '(evs, st) := whoamiServe reqs st in (OutOfFuel :: evs, st)
      end
  end.

(** Lines 263-279 of [apiHandler]: the [IP] field of the answer. *)
Definition apiHandler_IP (h : Host) : list string :=
  foldl (fun ips addrs =>
           foldl (fun ips addr =>
                    if ipOf addr is Some ip then ips ++ [IP_String (Some ip)]
                    else ips)
                 ips addrs)
        [] (net_Interfaces h).

End Whoami.

(* ===================================================================== *)
(** * Part II: lemmas and theorems                                        *)
(* ===================================================================== *)

(** ** Integers *)

Lemma wrap_inRange (bits z : Z) :
  0 < bits -> inRange bits z -> wrap bits z = z.
Proof.
  unfold wrap, inRange. intros Hb [Hlo Hhi].
  assert (Hp : 2 ^ bits = 2 * 2 ^ (bits - 1)).
  { rewrite <- Z.pow_succ_r by lia. f_equal. lia. }
  rewrite Z.mod_small; lia.
Qed.

Lemma wrap_is_inRange (bits z : Z) : 0 < bits -> inRange bits (wrap bits z).
Proof.
  unfold wrap, inRange. intros Hb.
  assert (Hp : 2 ^ bits = 2 * 2 ^ (bits - 1)).
  { rewrite <- Z.pow_succ_r by lia. f_equal. lia. }
  assert (0 < 2 ^ (bits - 1)) by (apply Z.pow_pos_nonneg; lia).
  pose proof (Z.mod_pos_bound (z + 2 ^ (bits - 1)) (2 ^ bits)). lia.
Qed.

Lemma int_inRange (z : Z) : inRange 64 z -> int z = z.
Proof. intros. apply wrap_inRange; [reflexivity | assumption]. Qed.

Lemma int64_inRange (z : Z) : inRange 64 z -> int64 z = z.
Proof. intros. apply wrap_inRange; [reflexivity | assumption]. Qed.

(** ** The character set *)

Lemma CHARSET_get (n : nat) :
  (n < 27)%nat -> is_Some (String.get n CHARSET).
Proof.
  intros Hn. do 27 (destruct n as [|n]; [eexists; reflexivity|]). lia.
Qed.

Lemma index_CHARSET (k : Z) :
  0 <= k < 27 -> index CHARSET k = Some (default "-"%byte (index CHARSET k)).
Proof.
  intros Hk. unfold index.
  replace (len CHARSET) with 27 by reflexivity.
  destruct (Z.leb_spec 0 k); [|lia]. destruct (Z.ltb_spec k 27); [|lia].
  destruct (CHARSET_get (Z.to_nat k)) as [c Hc]; [lia|].
  cbn [andb]. rewrite Hc. reflexivity.
Qed.

Lemma index_CHARSET_rem (i : Z) :
  0 <= i -> index CHARSET (Z.rem i (len CHARSET)) = Some (charAt i).
Proof.
  intros Hi. replace (len CHARSET) with 27 by reflexivity.
  rewrite Z.rem_mod_nonneg by lia. unfold charAt.
  apply index_CHARSET. apply Z.mod_pos_bound. lia.
Qed.

(** ** The loop of the generator *)

Lemma writeContent_for_Buffer (fuel : nat) :
  forall (i bound : Z) (w : Buffer),
    1 <= i -> bound < 2 ^ 63 -> (Z.to_nat (bound - i) <= fuel)%nat ->
    writeContent_for fuel i bound w
    = Returns (mkBuffer (Bytes w ++ (charAt <$> seqZ i (bound - i)))).
Proof.
  induction fuel as [|fuel IH]; intros i bound w Hi Hb Hf; simpl.
  - destruct (Z.ltb_spec i bound); [lia|].
    rewrite seqZ_nil by lia. simpl. rewrite app_nil_r. by destruct w.
  - destruct (Z.ltb_spec i bound) as [Hlt|Hge].
    + rewrite index_CHARSET_rem by lia.
      rewrite int_inRange by (unfold inRange; lia).
      rewrite IH by lia. simpl.
      rewrite (seqZ_cons i (bound - i)) by lia.
      rewrite fmap_cons, <- app_assoc. simpl.
      replace (Z.succ i) with (i + 1) by lia.
      replace (Z.pred (bound - i)) with (bound - (i + 1)) by lia.
      reflexivity.
    + rewrite seqZ_nil by lia. simpl. rewrite app_nil_r. by destruct w.
Qed.

Lemma Buffer_WriteRune_marker (w : Buffer) :
  WriteRune w marker = mkBuffer (Bytes w ++ [markerByte]).
Proof. reflexivity. Qed.

(** The generator appends exactly [pattern length], whatever the buffer
    held before, and always returns. *)
Lemma writeContent_Buffer (w : Buffer) (length : Z) :
  inRange 64 length ->
  writeContent w length = Returns (mkBuffer (Bytes w ++ pattern length)).
Proof.
  intros [Hlo Hhi]. unfold writeContent, pattern.
  destruct (Z.leb_spec length 0) as [Hle|Hpos].
  { rewrite app_nil_r. by destruct w. }
  rewrite (int_inRange length) by (unfold inRange; lia).
  rewrite int_inRange by (unfold inRange; lia).
  rewrite writeContent_for_Buffer by lia.
  rewrite !Buffer_WriteRune_marker. simpl Bytes.
  change (byteZ marker) with markerByte.
  destruct (Z.ltb_spec 1 length) as [Hgt|Hone].
  - destruct (Z.eqb_spec length 1); [lia|].
    replace (length - 1 - 1) with (length - 2) by lia.
    by rewrite <- !app_assoc.
  - destruct (Z.eqb_spec length 1); [|lia]. subst length.
    simpl. by rewrite <- app_assoc.
Qed.

Lemma pattern_length (L : Z) : 0 <= L -> Z.of_nat (length (pattern L)) = L.
Proof.
  intros HL. unfold pattern.
  destruct (Z.leb_spec L 0); [simpl; lia|].
  destruct (Z.eqb_spec L 1); [subst; reflexivity|].
  simpl. rewrite length_app, length_fmap, length_seqZ. simpl. lia.
Qed.

Example writeContent_10 :
  Bytes <$> returned (fillContent 10)
  = Some (String.list_byte_of_string "|ABCDEFGH|").
Proof. reflexivity. Qed.

Lemma pattern_lookup_filler (L i : Z) :
  1 <= i <= L - 2 -> pattern L !! Z.to_nat i = Some (charAt i).
Proof.
  intros Hi. unfold pattern.
  destruct (Z.leb_spec L 0); [lia|]. destruct (Z.eqb_spec L 1); [lia|].
  replace (Z.to_nat i) with (S (Z.to_nat (i - 1))) by lia.
  rewrite lookup_cons, lookup_app_l by (rewrite length_fmap, length_seqZ; lia).
  rewrite list_lookup_fmap, lookup_seqZ_lt by lia.
  simpl. do 2 f_equal. lia.
Qed.

Lemma pattern_ends (L : Z) :
  2 <= L -> head (pattern L) = Some markerByte /\ last (pattern L) = Some markerByte.
Proof.
  intros HL. unfold pattern.
  destruct (Z.leb_spec L 0); [lia|]. destruct (Z.eqb_spec L 1); [lia|].
  split; [reflexivity|].
  rewrite app_comm_cons. apply last_snoc.
Qed.

Lemma charAt_index (i : Z) : index CHARSET (i mod 27) = Some (charAt i).
Proof. unfold charAt. apply index_CHARSET, Z.mod_pos_bound. lia. Qed.

(** ** The generator on a pooled buffer *)

Lemma writeContent_for_PooledBuffer (fuel : nat) :
  forall (i bound : Z) (pb : PooledBuffer),
    writeContent_for fuel i bound pb
    = match writeContent_for fuel i bound (Buffer_of pb) with
      | Returns b => Returns (mkPooledBuffer b)
      | Panics msg => Panics msg
      | OutOfFuel => OutOfFuel
      end.
Proof.
  induction fuel as [|fuel IH]; intros i bound pb; simpl.
  - destruct (i <? bound); [reflexivity | by destruct pb].
  - destruct (i <? bound); [|by destruct pb].
    destruct (index CHARSET (Z.rem i (len CHARSET))); [|reflexivity].
    by rewrite IH.
Qed.

Lemma writeContent_through_embedding (pb : PooledBuffer) (length : Z) :
  writeContent pb length
  = match writeContent (Buffer_of pb) length with
    | Returns b => Returns (mkPooledBuffer b)
    | Panics msg => Panics msg
    | OutOfFuel => OutOfFuel
    end.
Proof.
  unfold writeContent. destruct (length <=? 0); [by destruct pb|].
  rewrite writeContent_for_PooledBuffer.
  cbn [WriteRune PooledBuffer_byteRuneWriter Buffer_byteRuneWriter Buffer_of].
  destruct (writeContent_for _ _ _ (Buffer_WriteRune (Buffer_of pb) marker));
    [|reflexivity..].
  by destruct (1 <? length).
Qed.

Lemma writeContent_PooledBuffer (pb : PooledBuffer) (length : Z) :
  inRange 64 length ->
  writeContent pb length
  = Returns (mkPooledBuffer (mkBuffer (Bytes (Buffer_of pb) ++ pattern length))).
Proof.
  intros Hr. by rewrite writeContent_through_embedding, writeContent_Buffer.
Qed.

(** ** Content generator: the claims *)

(** C1. For every non-negative length [L] the generator appends exactly [L]
    bytes to the buffer, plain or pooled; for [L >= 2] the first and the
    last of them are the marker; for [L = 1] the one byte written is the
    marker; for [L = 0] nothing is written and the buffer is returned as it
    was; for [L = 2] the output is two markers and nothing else. *)
Theorem C1_writeContent_writes_L_bytes (L : Z) :
  0 <= L -> L < 2 ^ 63 ->
  exists written : list byte,
    (forall w : Buffer,
       writeContent w L = Returns (mkBuffer (Bytes w ++ written)))
    /\ (forall pb : PooledBuffer,
          writeContent pb L
          = Returns (mkPooledBuffer (mkBuffer (Bytes (Buffer_of pb) ++ written))))
    /\ Z.of_nat (length written) = L
    /\ (2 <= L -> head written = Some markerByte /\ last written = Some markerByte)
    /\ (L = 1 -> written = [markerByte])
    /\ (L = 0 -> written = [] /\ forall w : Buffer, writeContent w L = Returns w)
    /\ (L = 2 -> written = [markerByte; markerByte]).
Proof.
  intros H0 Hmax. exists (pattern L).
  assert (Hr : inRange 64 L) by (unfold inRange; simpl; lia).
  split; [intros w; by apply writeContent_Buffer|].
  split; [intros pb; by apply writeContent_PooledBuffer|].
  split; [by apply pattern_length|].
  split; [apply pattern_ends|].
  split; [by intros ->|].
  split; [|by intros ->].
  intros ->. split; [reflexivity|]. by intros [bs].
Qed.

Lemma C1_witness :
  exists written : list byte,
    (forall w : Buffer,
       writeContent w 5 = Returns (mkBuffer (Bytes w ++ written)))
    /\ (forall pb : PooledBuffer,
          writeContent pb 5
          = Returns (mkPooledBuffer (mkBuffer (Bytes (Buffer_of pb) ++ written))))
    /\ Z.of_nat (length written) = 5
    /\ (2 <= 5 -> head written = Some markerByte /\ last written = Some markerByte)
    /\ (5 = 1 -> written = [markerByte])
    /\ (5 = 0 -> written = [] /\ forall w : Buffer, writeContent w 5 = Returns w)
    /\ (5 = 2 -> written = [markerByte; markerByte]).
Proof. apply (C1_writeContent_writes_L_bytes 5); lia. Defined.

(** C2. The character set is the separator followed by the 26 uppercase
    Latin letters, 27 symbols in all; for every length [L > 2] the byte at
    output position [i], [1 <= i <= L - 2], is the character of the set at
    index [i mod 27]; and length 10 yields the ten bytes [|ABCDEFGH|]. *)
Theorem C2_filler_cycles_through_CHARSET :
  len CHARSET = 27
  /\ list_ascii_of_string CHARSET
     = "-"%char :: ((fun k => ascii_of_nat (65 + k)) <$> seq 0 26)
  /\ (forall L i : Z,
        2 < L -> L < 2 ^ 63 -> 1 <= i <= L - 2 ->
        exists b c,
          fillContent L = Returns b
          /\ Z.of_nat (Buffer_Len b) = L
          /\ index CHARSET (i mod len CHARSET) = Some c
          /\ Bytes b !! Z.to_nat i = Some c)
  /\ fillContent 10
     = Returns (mkBuffer (String.list_byte_of_string "|ABCDEFGH|")).
Proof.
  split; [reflexivity|]. split; [reflexivity|]. split; [|reflexivity].
  intros L i HL Hmax Hi.
  exists (mkBuffer (pattern L)), (charAt i).
  split; [apply (writeContent_Buffer (mkBuffer [])); unfold inRange; simpl; lia|].
  split; [unfold Buffer_Len; simpl; apply pattern_length; lia|].
  split; [apply charAt_index|].
  simpl. apply pattern_lookup_filler. lia.
Qed.

Lemma C2_witness :
  exists b c,
    fillContent 30 = Returns b
    /\ Z.of_nat (Buffer_Len b) = 30
    /\ index CHARSET (28 mod len CHARSET) = Some c
    /\ Bytes b !! Z.to_nat 28 = Some c.
Proof.
  destruct C2_filler_cycles_through_CHARSET as (_ & _ & H & _).
  apply (H 30 28); lia.
Defined.

(** ** Buffer pool *)

Lemma delete_NoDup_lookup (l : list ptr) (k : nat) (x : ptr) :
  NoDup l -> l !! k = Some x ->
  NoDup (delete k l) /\ (x ∉ delete k l) /\ (forall y, y ∈ delete k l -> y ∈ l).
Proof.
  intros Hnd Hk.
  pose proof (take_drop_middle l k x Hk) as Hmid.
  rewrite delete_take_drop. rewrite <- Hmid in Hnd.
  apply NoDup_app in Hnd as (Ht & Hdisj & Hd).
  apply NoDup_cons in Hd as [Hx Hd].
  split; [|split].
  - apply NoDup_app. split; [done|]. split; [|done].
    intros y Hy Hy'. apply (Hdisj y Hy). by right.
  - intros Hin. apply elem_of_app in Hin as [Hin|Hin]; [|done].
    apply (Hdisj x Hin). by left.
  - intros y Hy. rewrite <- Hmid. apply elem_of_app.
    apply elem_of_app in Hy as [Hy|Hy]; [by left|]. right. by right.
Qed.

Lemma pool_ok_init : pool_ok Mem_init.
Proof.
  split; [constructor|]. split.
  - intros p Hp. by apply not_elem_of_nil in Hp.
  - intros p [x Hx]. simpl in Hx. by rewrite lookup_empty in Hx.
Qed.

(** An acquired buffer is empty, held, and the pool stays in order. *)
Lemma GetPooledBuffer_ok (choice : option nat) (m : Mem) (b : ptr) (m' : Mem) :
  pool_ok m -> GetPooledBuffer choice m = (b, m') ->
  pool_ok m' /\ BytesAt b m' = Some [] /\ b ∉ bufferPool m'.
Proof.
  intros (Hnd & Hclean & Hnext). unfold GetPooledBuffer, bufferPool_Get.
  destruct (choice ≫= _) as [p|] eqn:Hc; simpl.
  - destruct choice as [k|]; [|done]. simpl in Hc.
    intros [= <- <-]. simpl.
    destruct (delete_NoDup_lookup _ _ _ Hnd Hc) as (Hnd' & Hnotin & Hsub).
    split; [|split]; [|apply Hclean; by eapply list_elem_of_lookup_2|done].
    split; [done|]. split; [|done].
    intros q Hq. by apply Hclean, Hsub.
  - intros [= <- <-]. unfold bufferPool_New, dummyProfile_Add. simpl.
    assert (Hfresh : next m ∉ bufferPool m).
    { intros Hin. specialize (Hclean _ Hin). unfold BytesAt in Hclean.
      destruct (heap m !! next m) eqn:Hh; [|done].
      assert (next m < next m)%nat by (apply Hnext; eauto). lia. }
    split; [|split]; [|unfold BytesAt; simpl; by rewrite lookup_insert_eq|done].
    split; [done|]. split.
    + intros q Hq. unfold BytesAt. simpl.
      rewrite lookup_insert_ne by (intros Heq; apply Hfresh; by rewrite Heq).
      by apply Hclean.
    + intros q. simpl. rewrite lookup_insert. case_decide; [lia|].
      intros Hq. specialize (Hnext q Hq). lia.
Qed.

Lemma pool_ok_write_held (m : Mem) (b : ptr) (pb : PooledBuffer) :
  pool_ok m -> b ∉ bufferPool m -> is_Some (heap m !! b) ->
  pool_ok (mkMem (<[b := pb]> (heap m)) (next m) (bufferPool m)).
Proof.
  intros (Hnd & Hclean & Hnext) Hb Hal. split; [done|]. split; simpl.
  - intros q Hq. unfold BytesAt. simpl.
    rewrite lookup_insert_ne by (intros ->; done). by apply Hclean.
  - intros q. rewrite lookup_insert. case_decide; [subst; auto|auto].
Qed.

Lemma fillContentPooled_ok (choice : option nat) (length : Z) (m : Mem) :
  pool_ok m -> inRange 64 length ->
  exists b m',
    fillContentPooled choice length m = Returns (b, m')
    /\ pool_ok m' /\ BytesAt b m' = Some (pattern length) /\ b ∉ bufferPool m'.
Proof.
  intros Hok Hr. unfold fillContentPooled.
  destruct (GetPooledBuffer choice m) as [b m1] eqn:Hget.
  destruct (GetPooledBuffer_ok _ _ _ _ Hok Hget) as (Hok1 & Hempty & Hheld).
  unfold BytesAt in Hempty.
  destruct (heap m1 !! b) as [pb|] eqn:Hpb; [|done].
  simpl in Hempty. injection Hempty as Hempty.
  rewrite writeContent_PooledBuffer, Hempty by done. simpl.
  eexists _, _. split; [reflexivity|].
  split; [apply pool_ok_write_held; eauto|].
  split; [|done]. unfold BytesAt. simpl. by rewrite lookup_insert_eq.
Qed.

Lemma fillContentPooled_preserves (choice : option nat) (length : Z)
  (m : Mem) (b : ptr) (m' : Mem) :
  pool_ok m -> fillContentPooled choice length m = Returns (b, m') -> pool_ok m'.
Proof.
  intros Hok. unfold fillContentPooled.
  destruct (GetPooledBuffer choice m) as [b1 m1] eqn:Hget.
  destruct (GetPooledBuffer_ok _ _ _ _ Hok Hget) as (Hok1 & Hempty & Hheld).
  destruct (heap m1 !! b1) as [pb|] eqn:Hpb; [|done].
  destruct (writeContent pb length); [|done..].
  intros [= <- <-]. apply pool_ok_write_held; eauto.
Qed.

Lemma PooledBuffer_Reset_Len (b : ptr) (m : Mem) :
  is_Some (heap m !! b) ->
  Len b (PooledBuffer_Reset b m) = Some 0%nat
  /\ bufferPool (PooledBuffer_Reset b m) = bufferPool m.
Proof.
  intros [pb Hpb]. unfold Len, PooledBuffer_Reset. simpl.
  by rewrite lookup_alter_eq, Hpb.
Qed.

Lemma Close_ok (b : ptr) (m : Mem) :
  pool_ok m -> b ∉ bufferPool m -> is_Some (heap m !! b) ->
  pool_ok (Close b m).
Proof.
  intros (Hnd & Hclean & Hnext) Hb [pb Hpb].
  unfold Close, bufferPool_Put, dummyProfile_Remove, PooledBuffer_Reset. simpl.
  split; [by apply NoDup_cons|]. split; simpl.
  - intros q Hq. unfold BytesAt. simpl. rewrite lookup_alter.
    case_decide as Heq.
    + subst q. by rewrite Hpb.
    + apply elem_of_cons in Hq as [->|Hq]; [done|]. by apply Hclean.
  - intros q Hq. apply Hnext. by apply lookup_alter_is_Some in Hq.
Qed.

Lemma io_Copy_ok (tr : Transport) (b : ptr) (m : Mem) :
  pool_ok m -> b ∉ bufferPool m -> pool_ok (io_Copy tr b m).2.
Proof.
  intros Hok Hb. unfold io_Copy.
  destruct (heap m !! b) as [pb|] eqn:Hpb; [|done].
  assert (Hreset : pool_ok (PooledBuffer_Reset b m)).
  { destruct Hok as (Hnd & Hclean & Hnext). split; [done|]. split; simpl.
    - intros q Hq. unfold BytesAt. simpl.
      rewrite lookup_alter_ne by (intros ->; done). by apply Hclean.
    - intros q Hq. apply Hnext. by apply lookup_alter_is_Some in Hq. }
  destruct (0 <? length _)%nat; [|done].
  destruct (failure tr); [apply pool_ok_write_held; eauto|].
  destruct (_ =? _)%nat; [done|apply pool_ok_write_held; eauto].
Qed.

Lemma evict_ok (k : nat) (m : Mem) : pool_ok m -> pool_ok (bufferPool_evict k m).
Proof.
  intros (Hnd & Hclean & Hnext). unfold bufferPool_evict.
  pose proof (sublist_delete (bufferPool m) k) as Hsub.
  split; [by eapply sublist_NoDup|]. split; [|done].
  intros q Hq. simpl in Hq. unfold BytesAt. simpl.
  apply (Hclean q). by eapply elem_of_sublist.
Qed.

Lemma reachable_pool_ok (m : Mem) : reachable m -> pool_ok m.
Proof.
  induction 1 as [|choice length m b m' _ IH Hfill|tr b m _ IH Hb|b m _ IH Hb Hal|k m _ IH].
  - apply pool_ok_init.
  - by eapply fillContentPooled_preserves.
  - by apply io_Copy_ok.
  - by apply Close_ok.
  - by apply evict_ok.
Qed.

Lemma pattern_length_max (N : Z) : Z.of_nat (length (pattern N)) = Z.max 0 N.
Proof.
  destruct (Z.le_gt_cases 0 N) as [Hn|Hn].
  - rewrite pattern_length by done. lia.
  - unfold pattern. destruct (Z.leb_spec N 0); [simpl|]; lia.
Qed.

Lemma Close_unfold (b : ptr) (m : Mem) :
  Close b m = bufferPool_Put b (PooledBuffer_Reset b m).
Proof. reflexivity. Qed.

Lemma Close_Len (b : ptr) (m : Mem) :
  is_Some (heap m !! b) ->
  Len b (Close b m) = Some 0%nat /\ b ∈ bufferPool (Close b m).
Proof.
  intros Hal. split; [|by left].
  by destruct (PooledBuffer_Reset_Len b m Hal) as [Hlen _].
Qed.

(** C6. Closing a buffer resets its length to zero, and only then puts it
    back into the pool; so after acquire, fill with [N] bytes and release,
    whatever buffer the next acquire hands out has length 0. *)
Theorem C6_release_resets_before_reuse :
  (forall (m : Mem) (b : ptr),
     is_Some (heap m !! b) ->
     Len b (PooledBuffer_Reset b m) = Some 0%nat
     /\ bufferPool (PooledBuffer_Reset b m) = bufferPool m
     /\ Close b m = bufferPool_Put b (PooledBuffer_Reset b m)
     /\ Len b (Close b m) = Some 0%nat
     /\ b ∈ bufferPool (Close b m))
  /\ (forall (m : Mem) (choice choice' : option nat) (N : Z),
        reachable m -> inRange 64 N ->
        exists (b : ptr) (m1 : Mem) (n : nat),
          fillContentPooled choice N m = Returns (b, m1)
          /\ Len b m1 = Some n /\ Z.of_nat n = Z.max 0 N
          /\ reachable (Close b m1)
          /\ Len b (Close b m1) = Some 0%nat
          /\ Len (GetPooledBuffer choice' (Close b m1)).1
                 (GetPooledBuffer choice' (Close b m1)).2 = Some 0%nat).
Proof.
  split.
  - intros m b Hal.
    destruct (PooledBuffer_Reset_Len b m Hal) as [Hlen Hpool].
    destruct (Close_Len b m Hal) as [Hlen' Hin]. by rewrite Close_unfold.
  - intros m choice choice' N Hreach Hr.
    pose proof (reachable_pool_ok m Hreach) as Hok.
    destruct (fillContentPooled_ok choice N m Hok Hr)
      as (b & m1 & Hfill & Hok1 & Hbytes & Hheld).
    assert (Hal : is_Some (heap m1 !! b)).
    { unfold BytesAt in Hbytes. destruct (heap m1 !! b); [eauto|done]. }
    assert (Hreach1 : reachable (Close b m1)).
    { apply reach_close; [|done..]. by eapply reach_fill. }
    exists b, m1, (length (pattern N)).
    split; [done|]. split.
    { unfold Len, BytesAt, Buffer_Len in *. destruct (heap m1 !! b); [|done].
      simpl in *. by injection Hbytes as ->. }
    split; [apply pattern_length_max|]. split; [done|].
    split; [by apply Close_Len|].
    destruct (GetPooledBuffer choice' (Close b m1)) as [b' m3] eqn:Hget.
    destruct (GetPooledBuffer_ok _ _ _ _ (reachable_pool_ok _ Hreach1) Hget)
      as (_ & Hempty & _).
    simpl. unfold Len, BytesAt, Buffer_Len in *.
    destruct (heap m3 !! b'); [|done]. simpl in *. by injection Hempty as ->.
Qed.

Lemma C6_witness :
  exists (b : ptr) (m1 : Mem) (n : nat),
    fillContentPooled None 7 Mem_init = Returns (b, m1)
    /\ Len b m1 = Some n /\ Z.of_nat n = Z.max 0 7
    /\ reachable (Close b m1)
    /\ Len b (Close b m1) = Some 0%nat
    /\ Len (GetPooledBuffer (Some 0%nat) (Close b m1)).1
           (GetPooledBuffer (Some 0%nat) (Close b m1)).2 = Some 0%nat.
Proof.
  apply (proj2 C6_release_resets_before_reuse Mem_init None (Some 0%nat) 7).
  - apply reach_init.
  - unfold inRange. simpl. lia.
Defined.

(** C9. The generator is deterministic: two calls with the same length on
    empty buffers, plain or freshly acquired from the pool in whatever
    state, leave the same bytes, which are a function of the length
    alone. *)
Theorem C9_fill_is_deterministic :
  (forall (w1 w2 : Buffer) (L : Z),
     inRange 64 L -> Bytes w1 = [] -> Bytes w2 = [] ->
     writeContent w1 L = writeContent w2 L
     /\ writeContent w1 L = Returns (mkBuffer (pattern L)))
  /\ (forall (m1 m2 : Mem) (c1 c2 : option nat) (L : Z),
        reachable m1 -> reachable m2 -> inRange 64 L ->
        exists b1 m1' b2 m2',
          fillContentPooled c1 L m1 = Returns (b1, m1')
          /\ fillContentPooled c2 L m2 = Returns (b2, m2')
          /\ BytesAt b1 m1' = Some (pattern L)
          /\ BytesAt b2 m2' = BytesAt b1 m1').
Proof.
  split.
  - intros [bs1] [bs2] L Hr. simpl. intros -> ->.
    by rewrite !writeContent_Buffer.
  - intros m1 m2 c1 c2 L H1 H2 Hr.
    destruct (fillContentPooled_ok c1 L m1 (reachable_pool_ok _ H1) Hr)
      as (b1 & m1' & Hf1 & _ & Hb1 & _).
    destruct (fillContentPooled_ok c2 L m2 (reachable_pool_ok _ H2) Hr)
      as (b2 & m2' & Hf2 & _ & Hb2 & _).
    exists b1, m1', b2, m2'. by rewrite Hb1, Hb2.
Qed.

(** ** strconv.ParseInt *)

Lemma digitsValue_ge (s : string) :
  forall acc v, 0 <= acc -> digitsValue s acc = Some v -> acc <= v.
Proof.
  induction s as [|c s IH]; intros acc v Hacc; simpl.
  - intros [= <-]. lia.
  - destruct (Z.leb_spec 48 (byteOf c)); [|done].
    destruct (Z.leb_spec (byteOf c) 57); [|done]. simpl.
    intros Hv. apply IH in Hv; lia.
Qed.

Lemma ParseUint_digits_spec (s : string) :
  forall n, 0 <= n <= maxUint64 ->
    match digitsValue s n with
    | Some v =>
        ParseUint_digits s n
        = if v <=? maxUint64 then (v, None) else (maxUint64, Some ErrRange)
    | None =>
        ParseUint_digits s n = (0, Some ErrSyntax)
        \/ ParseUint_digits s n = (maxUint64, Some ErrRange)
    end.
Proof.
  unfold maxUint64.
  induction s as [|c s IH]; intros n Hn; simpl.
  - destruct (Z.leb_spec n (2 ^ 64 - 1)); [done|lia].
  - destruct (Z.leb_spec 48 (byteOf c)); [|simpl; eauto].
    destruct (Z.leb_spec (byteOf c) 57); [|simpl; eauto].
    cbn [andb]. set (d := byteOf c - 48).
    assert (Hd : 0 <= d <= 9) by lia.
    unfold maxUint64.
    change ((2 ^ 64 - 1) / 10 + 1) with 1844674407370955162.
    change (2 ^ 64) with 18446744073709551616 in *.
    assert (Hover : 18446744073709551616 - 1 < n * 10 + d ->
      match digitsValue s (n * 10 + d) with
      | Some v =>
          (18446744073709551616 - 1, Some ErrRange)
          = if v <=? 18446744073709551616 - 1 then (v, None)
            else (18446744073709551616 - 1, Some ErrRange)
      | None =>
          (18446744073709551616 - 1, Some ErrRange) = (0, Some ErrSyntax)
          \/ (18446744073709551616 - 1, Some ErrRange)
             = (18446744073709551616 - 1, Some ErrRange)
      end).
    { intros Hbig. destruct (digitsValue s (n * 10 + d)) as [v|] eqn:Hv; [|eauto].
      apply digitsValue_ge in Hv; [|lia].
      destruct (Z.leb_spec v (18446744073709551616 - 1)); [lia|done]. }
    destruct (Z.leb_spec 1844674407370955162 n) as [Hcut|Hcut].
    { apply Hover. lia. }
    destruct (Z.le_gt_cases (n * 10 + d) (18446744073709551616 - 1)) as [Hfit|Hbig].
    + rewrite Z.mod_small by lia.
      destruct (Z.ltb_spec (n * 10 + d) (n * 10)); [lia|].
      destruct (Z.ltb_spec (18446744073709551616 - 1) (n * 10 + d)); [lia|].
      cbn [orb]. apply IH. lia.
    + assert (Hmod : (n * 10 + d) mod 18446744073709551616
                     = n * 10 + d - 18446744073709551616).
      { symmetry. apply (Z.mod_unique_pos _ _ 1); lia. }
      rewrite Hmod.
      destruct (Z.ltb_spec (n * 10 + d - 18446744073709551616) (n * 10)); [|lia].
      cbn [orb]. by apply Hover.
Qed.

Lemma ParseUint_spec (s : string) :
  match unsignedDecimal s with
  | Some v =>
      0 <= v
      /\ ParseUint s
         = if v <=? maxUint64 then (v, None) else (maxUint64, Some ErrRange)
  | None =>
      ParseUint s = (0, Some ErrSyntax) \/ ParseUint s = (maxUint64, Some ErrRange)
  end.
Proof.
  destruct s as [|c s]; [simpl; eauto|].
  unfold unsignedDecimal, ParseUint.
  pose proof (ParseUint_digits_spec (String c s) 0) as H.
  destruct (digitsValue (String c s) 0) as [v|] eqn:Hv.
  - split; [by eapply digitsValue_ge|]. apply H. unfold maxUint64. lia.
  - apply H. unfold maxUint64. lia.
Qed.

(** Decide the integer comparisons of the goal, one after the other. *)
Ltac split_on_le :=
  match goal with |- context [?x <=? ?y] => destruct (Z.leb_spec x y) end.
Ltac split_on_lt :=
  match goal with |- context [?x <? ?y] => destruct (Z.ltb_spec x y) end.
Ltac case_compare :=
  repeat first [split_on_le | split_on_lt]; cbn [andb orb negb].

Lemma ParseInt_tail (neg : bool) (s' : string) :
  clampParsed
    (match ParseUint s' with
     | (_, Some ErrSyntax) => (0, Some ErrSyntax)
     | (un, _) =>
         if negb neg && (2 ^ 63 <=? un) then (2 ^ 63 - 1, Some ErrRange)
         else if neg && (2 ^ 63 <? un) then (- 2 ^ 63, Some ErrRange)
         else (if neg then int64 (- int64 un) else int64 un, None)
     end)
  = match (if neg then Z.opp <$> unsignedDecimal s' else unsignedDecimal s') with
    | Some v =>
        if (- 2 ^ 63 <=? v) && (v <? 2 ^ 63)
        then (if v <? 0 then 0 else v)
        else 1
    | None => 1
    end.
Proof.
  pose proof (ParseUint_spec s') as H.
  destruct (unsignedDecimal s') as [v|].
  - destruct H as [Hv ->]. unfold maxUint64.
    change (2 ^ 64) with 18446744073709551616.
    change (2 ^ 63) with 9223372036854775808.
    destruct (Z.leb_spec v (18446744073709551616 - 1)) as [Hfit|Hbig].
    + destruct neg; unfold clampParsed; cbn [negb andb fmap option_fmap option_map].
      * destruct (Z.ltb_spec 9223372036854775808 v) as [Hlt|Hle].
        { case_compare; lia. }
        destruct (Z.eq_dec v 9223372036854775808) as [->|Hne]; [reflexivity|].
        rewrite (int64_inRange v) by (unfold inRange; simpl; lia).
        rewrite int64_inRange by (unfold inRange; simpl; lia).
        case_compare; lia.
      * destruct (Z.leb_spec 9223372036854775808 v) as [Hge|Hlt].
        { case_compare; lia. }
        rewrite int64_inRange by (unfold inRange; simpl; lia).
        case_compare; lia.
    + destruct neg; unfold clampParsed; cbn [negb andb fmap option_fmap option_map];
        case_compare; lia.
  - destruct H as [-> | ->]; destruct neg; reflexivity.
Qed.

(** [ParseInt] followed by the default and the clamp is the size the spec
    words describe. *)
Lemma ParseInt_sizeBase (text : string) :
  clampParsed (ParseInt text) = sizeBase text.
Proof.
  destruct text as [|c rest]; [reflexivity|].
  unfold ParseInt, sizeBase, decimal.
  change (2 ^ 63) with 9223372036854775808.
  destruct (Ascii.eqb_spec c "-") as [->|Hminus].
  - cbn [orb]. change (Ascii.eqb "-" "+") with false. cbn [orb].
    apply (ParseInt_tail true rest).
  - destruct (Ascii.eqb_spec c "+") as [->|Hplus].
    + cbn [orb]. apply (ParseInt_tail false rest).
    + cbn [orb]. apply (ParseInt_tail false (String c rest)).
Qed.

Lemma sizeBase_bounds (text : string) : 0 <= sizeBase text < 2 ^ 63.
Proof.
  unfold sizeBase. change (2 ^ 63) with 9223372036854775808.
  destruct (decimal text) as [v|]; [|lia].
  case_compare; lia.
Qed.

Example ParseInt_examples :
  ParseInt "42" = (42, None)
  /\ ParseInt "-7" = (-7, None)
  /\ ParseInt "+9" = (9, None)
  /\ ParseInt "" = (0, Some ErrSyntax)
  /\ ParseInt "12kb" = (0, Some ErrSyntax)
  /\ ParseInt "9223372036854775807" = (9223372036854775807, None)
  /\ ParseInt "9223372036854775808" = (9223372036854775807, Some ErrRange)
  /\ ParseInt "-9223372036854775808" = (-9223372036854775808, None)
  /\ ParseInt "-9223372036854775809" = (-9223372036854775808, Some ErrRange)
  /\ ParseInt "99999999999999999999999x" = (9223372036854775807, Some ErrRange).
Proof. repeat split; reflexivity. Qed.

(** ** strings.ToLower on ASCII text *)

Lemma byteOf_bound (c : ascii) : 0 <= byteOf c < 256.
Proof.
  unfold byteOf. pose proof (N_ascii_bounded c). lia.
Qed.

Lemma byteOf_lowerASCII (c : ascii) :
  byteOf (lowerASCII c)
  = if (65 <=? byteOf c) && (byteOf c <=? 90) then byteOf c + 32 else byteOf c.
Proof.
  unfold lowerASCII.
  destruct (Z.leb_spec 65 (byteOf c)); [|done].
  destruct (Z.leb_spec (byteOf c) 90); [|done]. cbn [andb].
  unfold byteOf in *. rewrite N_ascii_embedding by lia. lia.
Qed.

Lemma lowerASCII_keeps_ASCII (a b : ascii) :
  lowerASCII a = lowerASCII b -> byteOf b < 128 -> byteOf a < 128.
Proof.
  intros Heq Hb. apply (f_equal byteOf) in Heq.
  rewrite !byteOf_lowerASCII in Heq.
  revert Heq. case_compare; lia.
Qed.

Lemma sameUpToCase_isASCII (u : string) :
  forall t, isASCII t = true -> sameUpToCase u t = true -> isASCII u = true.
Proof.
  unfold isASCII.
  induction u as [|a u IH]; intros [|b t]; simpl; try done.
  intros [Hb Ht]%andb_prop [Hab Hut]%andb_prop.
  apply Ascii.eqb_eq in Hab. apply Z.ltb_lt in Hb.
  apply andb_true_intro. split; [|by eapply IH].
  apply Z.ltb_lt. by eapply lowerASCII_keeps_ASCII.
Qed.

Lemma sameUpToCase_mapASCII (u : string) :
  forall t, mapASCII lowerASCII t = t ->
    sameUpToCase u t = true <-> mapASCII lowerASCII u = t.
Proof.
  induction u as [|a u IH]; intros [|b t]; simpl; try done.
  intros [= Hb Ht]. rewrite Hb. rewrite andb_true_iff, Ascii.eqb_eq, (IH t Ht).
  split; [by intros [-> ->]|by intros [= -> ->]].
Qed.

(** ** Units *)

Lemma units_are_powers_of_1024 :
  KB = 1024 /\ MB = 1024 ^ 2 /\ GB = 1024 ^ 3 /\ TB = 1024 ^ 4.
Proof. repeat split; reflexivity. Qed.

Lemma int64_congruent (z : Z) : (int64 z - z) mod 2 ^ 64 = 0.
Proof.
  unfold int64, wrap. change (2 ^ (64 - 1)) with (2 ^ 63).
  rewrite (Z.mod_eq (z + 2 ^ 63) (2 ^ 64)) by lia.
  replace (z + 2 ^ 63 - 2 ^ 64 * ((z + 2 ^ 63) `div` 2 ^ 64) - 2 ^ 63 - z)
    with ((- ((z + 2 ^ 63) `div` 2 ^ 64)) * 2 ^ 64) by lia.
  apply Z.mod_mul. lia.
Qed.

Lemma served_Write (bs : list byte) : served [ResponseWriter_Write bs] = bs.
Proof. unfold served. simpl. apply app_nil_r. Qed.

Lemma io_Copy_served (tr : Transport) (b : ptr) (m : Mem) (bs : list byte) :
  BytesAt b m = Some bs ->
  served (io_Copy tr b m).1.1 = bs
  /\ bufferPool (io_Copy tr b m).2 = bufferPool m
  /\ is_Some (heap (io_Copy tr b m).2 !! b).
Proof.
  unfold BytesAt, io_Copy. destruct (heap m !! b) as [pb|] eqn:Hpb; [|done].
  simpl. intros [= Hbs]. rewrite Hbs.
  assert (Hreset : is_Some (heap (PooledBuffer_Reset b m) !! b)).
  { unfold PooledBuffer_Reset. simpl. rewrite lookup_alter_eq, Hpb. eauto. }
  destruct bs as [|x bs]; simpl.
  { done. }
  destruct (failure tr); simpl.
  { rewrite served_Write, lookup_insert_eq. eauto. }
  destruct (_ =? S (length bs))%nat; simpl; rewrite served_Write;
    [done|rewrite lookup_insert_eq; eauto].
Qed.

Section HandlerProperties.

(** The two library functions the handlers are parametrised by. *)
Variable lower : string -> string.
Variable decode : list byte -> Z + string.

Lemma strings_ToLower_sameUpToCase (u t : string) :
  isASCII t = true -> mapASCII lowerASCII t = t ->
  (sameUpToCase u t = true -> strings_ToLower lower u = t)
  /\ (isASCII u = true -> strings_ToLower lower u = t -> sameUpToCase u t = true).
Proof.
  intros Hascii Hlow. unfold strings_ToLower. split.
  - intros Hsame. rewrite (sameUpToCase_isASCII u t Hascii Hsame).
    by apply sameUpToCase_mapASCII.
  - intros ->. by apply sameUpToCase_mapASCII.
Qed.

Lemma dataHandler_size_spec (q : gmap string (list string)) :
  dataHandler_size lower q
  = match unitMultiplier (strings_ToLower lower (Values_Get q "unit")) with
    | Some k => int64 (sizeBase (Values_Get q "size") * k)
    | None => sizeBase (Values_Get q "size")
    end.
Proof.
  unfold dataHandler_size, unitMultiplier.
  rewrite <- ParseInt_sizeBase. unfold clampParsed.
  destruct (ParseInt (Values_Get q "size")) as [size err].
  by repeat destruct (String.eqb _ _).
Qed.

Lemma dataHandler_size_inRange (q : gmap string (list string)) :
  inRange 64 (dataHandler_size lower q).
Proof.
  rewrite dataHandler_size_spec.
  destruct (unitMultiplier _); [by apply wrap_is_inRange|].
  pose proof (sizeBase_bounds (Values_Get q "size")).
  unfold inRange. simpl. lia.
Qed.

(** A request whose URL does not parse again makes the data route panic
    at its second line. *)
Lemma dataHandler_nil_URL (choice : option nat) (tr : Transport)
  (r : Request) (m : Mem) :
  reparsedURL r = None ->
  dataHandler lower choice tr r m
  = Panics "runtime error: invalid memory address or nil pointer dereference".
Proof. intros Hnil. unfold dataHandler. by rewrite Hnil. Qed.

(** For a request whose URL parses again, the data route returns, serves
    exactly what the generator wrote for the computed size, and leaves the
    pool in order. *)
Lemma dataHandler_spec (choice : option nat) (tr : Transport) (r : Request)
  (q : gmap string (list string)) (m : Mem) :
  reparsedURL r = Some q ->
  reachable m ->
  exists (b : ptr) (m1 : Mem) (events : list Event) (m' : Mem),
    fillContentPooled choice (dataHandler_size lower q) m = Returns (b, m1)
    /\ BytesAt b m1 = Some (pattern (dataHandler_size lower q))
    /\ dataHandler lower choice tr r m = Returns (events, m')
    /\ served events = pattern (dataHandler_size lower q)
    /\ reachable m'.
Proof.
  intros Hq Hreach. pose proof (reachable_pool_ok m Hreach) as Hok.
  destruct (fillContentPooled_ok choice (dataHandler_size lower q) m Hok
              (dataHandler_size_inRange _)) as (b & m1 & Hfill & Hok1 & Hbytes & Hheld).
  assert (Hreach1 : reachable m1) by (by eapply reach_fill).
  assert (Hal : is_Some (heap m1 !! b)).
  { unfold BytesAt in Hbytes. destruct (heap m1 !! b); [eauto|done]. }
  unfold dataHandler. rewrite Hq. cbn [URL_Query]. rewrite Hfill.
  destruct (ParseBool _) as [attachment err].
  destruct (if err is Some _ then false else attachment).
  - eexists b, m1, _, _. repeat split; [done..| |].
    + rewrite Hbytes. unfold served. simpl. by rewrite app_nil_r.
    + by apply reach_close.
  - destruct (io_Copy_served tr b m1 _ Hbytes) as (Hserved & Hpool & Hal2).
    pose proof (reach_copy tr b m1 Hreach1 Hheld) as Hreach2.
    destruct (io_Copy tr b m1) as [[events e] m2]. simpl in *.
    assert (Hreach3 : reachable (Close b m2)).
    { apply reach_close; [done| |done]. by rewrite Hpool. }
    destruct e as [e|]; eexists b, m1, _, _; repeat split; try done.
    unfold served in *. rewrite fmap_app, concat_app, Hserved. simpl.
    by rewrite app_nil_r.
Qed.

Lemma unitMultiplier_Some (t : string) (k : Z) :
  unitMultiplier t = Some k ->
  (t = "kb"%string /\ k = 1024) \/ (t = "mb"%string /\ k = 1024 ^ 2)
  \/ (t = "gb"%string /\ k = 1024 ^ 3) \/ (t = "tb"%string /\ k = 1024 ^ 4).
Proof.
  unfold unitMultiplier.
  destruct (String.eqb_spec t "kb"); [intros [= <-]; auto|].
  destruct (String.eqb_spec t "mb"); [intros [= <-]; auto|].
  destruct (String.eqb_spec t "gb"); [intros [= <-]; auto|].
  destruct (String.eqb_spec t "tb"); [intros [= <-]; auto 6|done].
Qed.

Lemma unit_matches (u t : string) (k : Z) :
  unitMultiplier t = Some k -> sameUpToCase u t = true ->
  strings_ToLower lower u = t.
Proof.
  intros Hk Hsame.
  assert (Ht : isASCII t = true /\ mapASCII lowerASCII t = t).
  { destruct (unitMultiplier_Some t k Hk) as [[-> _]|[[-> _]|[[-> _]|[-> _]]]];
      by split. }
  destruct Ht as [Ha Hl].
  by apply (strings_ToLower_sameUpToCase u t Ha Hl).
Qed.

(** C7. On the data route a missing or malformed size counts as 1 byte, a
    negative size as 0; a unit that is kb, mb, gb or tb up to the case of
    its letters multiplies that size by 1024, 1024^2, 1024^3 or 1024^4 (as
    Go multiplies 64-bit integers: exactly, whenever the product fits);
    any other unit leaves it as it is; and for the query values the handler
    reads (those of the request's URL parsed again) the generator is run
    with the resulting byte count and nothing else. *)
Theorem C7_size_default_clamp_and_unit :
  (forall q : gmap string (list string),
     q !! "size"%string = None ->
     Values_Get q "size" = ""%string /\ sizeBase (Values_Get q "size") = 1)
  /\ (forall text : string,
        (forall v, decimal text = Some v -> ~ inRange 64 v) -> sizeBase text = 1)
  /\ (forall (text : string) (v : Z),
        decimal text = Some v -> inRange 64 v ->
        sizeBase text = if v <? 0 then 0 else v)
  /\ (KB = 1024 /\ MB = 1024 ^ 2 /\ GB = 1024 ^ 3 /\ TB = 1024 ^ 4)
  /\ (forall (q : gmap string (list string)) (t : string) (k : Z),
        unitMultiplier t = Some k ->
        sameUpToCase (Values_Get q "unit") t = true ->
        dataHandler_size lower q = int64 (sizeBase (Values_Get q "size") * k)
        /\ (sizeBase (Values_Get q "size") * k < 2 ^ 63 ->
            dataHandler_size lower q = sizeBase (Values_Get q "size") * k))
  /\ (forall q : gmap string (list string),
        unitMultiplier (strings_ToLower lower (Values_Get q "unit")) = None ->
        dataHandler_size lower q = sizeBase (Values_Get q "size"))
  /\ (forall (q : gmap string (list string)),
        isASCII (Values_Get q "unit") = true ->
        (forall t k, unitMultiplier t = Some k ->
                     sameUpToCase (Values_Get q "unit") t = false) ->
        dataHandler_size lower q = sizeBase (Values_Get q "size"))
  /\ (forall (choice : option nat) (tr : Transport) (r : Request)
             (q : gmap string (list string)) (m : Mem),
        reparsedURL r = Some q ->
        reachable m ->
        exists (b : ptr) (m1 : Mem) (events : list Event) (m' : Mem),
          fillContentPooled choice (dataHandler_size lower q) m
          = Returns (b, m1)
          /\ BytesAt b m1 = Some (pattern (dataHandler_size lower q))
          /\ dataHandler lower choice tr r m = Returns (events, m')
          /\ served events = pattern (dataHandler_size lower q)).
Proof.
  split.
  { intros q Hq. unfold Values_Get. by rewrite Hq. }
  split.
  { intros text Hbad. unfold sizeBase.
    destruct (decimal text) as [v|]; [|done]. specialize (Hbad v eq_refl).
    change (2 ^ 63) with 9223372036854775808.
    case_compare; try done; exfalso; apply Hbad; unfold inRange; simpl; lia. }
  split.
  { intros text v Hv [Hlo Hhi]. unfold sizeBase. rewrite Hv.
    simpl in Hlo, Hhi. change (2 ^ 63) with 9223372036854775808.
    case_compare; lia. }
  split; [apply units_are_powers_of_1024|].
  split.
  { intros q t k Hk Hsame. rewrite dataHandler_size_spec.
    rewrite (unit_matches _ t k Hk Hsame), Hk. split; [done|].
    intros Hfit. apply int64_inRange.
    pose proof (sizeBase_bounds (Values_Get q "size")).
    assert (0 < k).
    { destruct (unitMultiplier_Some t k Hk) as [[_ ->]|[[_ ->]|[[_ ->]|[_ ->]]]];
        lia. }
    unfold inRange. simpl. nia. }
  split.
  { intros q Hnone. by rewrite dataHandler_size_spec, Hnone. }
  split.
  { intros q Hascii Hno. rewrite dataHandler_size_spec.
    destruct (unitMultiplier _) as [k|] eqn:Hk; [|done].
    assert (Hsame : sameUpToCase (Values_Get q "unit")
                      (strings_ToLower lower (Values_Get q "unit")) = true).
    { assert (Ht : isASCII (strings_ToLower lower (Values_Get q "unit")) = true
                   /\ mapASCII lowerASCII (strings_ToLower lower (Values_Get q "unit"))
                      = strings_ToLower lower (Values_Get q "unit")).
      { destruct (unitMultiplier_Some _ k Hk) as [[-> _]|[[-> _]|[[-> _]|[-> _]]]];
          by split. }
      destruct Ht as [Ha Hl].
      by apply (strings_ToLower_sameUpToCase _ _ Ha Hl). }
    by rewrite (Hno _ k Hk) in Hsame. }
  intros choice tr r q m Hq Hreach.
  destruct (dataHandler_spec choice tr r q m Hq Hreach)
    as (b & m1 & events & m' & H1 & H2 & H3 & H4 & _).
  by exists b, m1, events, m'.
Qed.

(** C10. The unit scaling is a wrapping 64-bit multiplication, so a large
    size with a unit can come out as zero or negative, and for every length
    [<= 0] the generator writes nothing and returns.  The data route
    returns for every request whose URL parses again, whatever its size
    and unit, serving either nothing or the whole pattern of the computed
    length, never a part of it.  It is not total: a request whose URL does
    not parse again makes it panic on the nil [*url.URL], before the size
    is read. *)
Theorem C10_scaling_wraps_and_data_path :
  (forall (q : gmap string (list string)) (k : Z),
     unitMultiplier (strings_ToLower lower (Values_Get q "unit")) = Some k ->
     dataHandler_size lower q = wrap 64 (sizeBase (Values_Get q "size") * k)
     /\ (dataHandler_size lower q - sizeBase (Values_Get q "size") * k) mod 2 ^ 64 = 0
     /\ inRange 64 (dataHandler_size lower q))
  /\ (sizeBase "9007199254740992" = 2 ^ 53
      /\ dataHandler_size lower (sizeUnitQuery "9007199254740992" "kb") = - 2 ^ 63)
  /\ (sizeBase "18014398509481984" = 2 ^ 54
      /\ dataHandler_size lower (sizeUnitQuery "18014398509481984" "KB") = 0)
  /\ (forall (W : Type) (H : byteRuneWriter W) (w : W) (length : Z),
        length <= 0 -> writeContent w length = Returns w)
  /\ (forall (choice : option nat) (tr : Transport) (r : Request)
             (q : gmap string (list string)) (m : Mem),
        reparsedURL r = Some q ->
        reachable m ->
        exists (events : list Event) (m' : Mem),
          dataHandler lower choice tr r m = Returns (events, m')
          /\ served events = pattern (dataHandler_size lower q)
          /\ Z.of_nat (length (served events))
             = Z.max 0 (dataHandler_size lower q)
          /\ (dataHandler_size lower q <= 0 -> served events = []))
  /\ (forall (choice : option nat) (tr : Transport) (r : Request) (m : Mem),
        reparsedURL r = None ->
        dataHandler lower choice tr r m
        = Panics
            "runtime error: invalid memory address or nil pointer dereference").
Proof.
  split.
  { intros q k Hk. rewrite dataHandler_size_spec, Hk.
    split; [done|]. split; [apply int64_congruent|by apply wrap_is_inRange]. }
  split; [split; vm_compute; reflexivity|].
  split; [split; vm_compute; reflexivity|].
  split.
  { intros W H w length Hle. unfold writeContent.
    by destruct (Z.leb_spec length 0); [|lia]. }
  split; [|apply dataHandler_nil_URL].
  intros choice tr r q m Hq Hreach.
  destruct (dataHandler_spec choice tr r q m Hq Hreach)
    as (b & m1 & events & m' & _ & _ & Hrun & Hserved & _).
  exists events, m'. split; [done|]. split; [done|].
  rewrite Hserved. split; [apply pattern_length_max|].
  intros Hle. unfold pattern.
  by destruct (Z.leb_spec (dataHandler_size lower q) 0); [|lia].
Qed.

(** ** Health state *)



(** C8. A write request either succeeds at once or fails before it
    reaches the state: when the body does not decode, the POST answers
    400 Bad Request and the stored status code is the one it was. *)
Theorem C8_health_decode_error_leaves_state :
  (forall (req : Request) (st : healthState) (err : string),
     Method req = "POST"%string -> decode (Body req) = inr err ->
     healthHandler decode req st = ([http_Error err 400], st))
  /\ (forall (req : Request) (st : healthState),
        Method req = "POST"%string ->
        (exists code printed,
            decode (Body req) = inl code
            /\ healthHandler decode req st = (printed, mkHealthState code))
        \/ (exists err,
               decode (Body req) = inr err
               /\ healthHandler decode req st = ([http_Error err 400], st))).
Proof.
  split.
  - intros req st err Hpost Hdec. unfold healthHandler. by rewrite Hpost, Hdec.
  - intros req st Hpost. unfold healthHandler. rewrite Hpost. simpl.
    destruct (decode (Body req)) as [code|err]; [left|right]; eauto.
Qed.

End HandlerProperties.

(** ** The claims at concrete inputs *)

Lemma C9_witness :
  exists b1 m1' b2 m2',
    fillContentPooled None 12 Mem_init = Returns (b1, m1')
    /\ fillContentPooled (Some 3%nat) 12 (bufferPool_evict 0 Mem_init)
       = Returns (b2, m2')
    /\ BytesAt b1 m1' = Some (pattern 12)
    /\ BytesAt b2 m2' = BytesAt b1 m1'.
Proof.
  apply (proj2 C9_fill_is_deterministic
           Mem_init (bufferPool_evict 0 Mem_init) None (Some 3%nat) 12).
  - apply reach_init.
  - apply reach_evict, reach_init.
  - unfold inRange. simpl. lia.
Defined.

Lemma C7_witness :
  dataHandler_size (fun s => s) (sizeUnitQuery "3" "Kb")
  = int64 (sizeBase (Values_Get (sizeUnitQuery "3" "Kb") "size") * 1024)
  /\ (sizeBase (Values_Get (sizeUnitQuery "3" "Kb") "size") * 1024 < 2 ^ 63 ->
      dataHandler_size (fun s => s) (sizeUnitQuery "3" "Kb")
      = sizeBase (Values_Get (sizeUnitQuery "3" "Kb") "size") * 1024).
Proof.
  apply (proj1 (proj2 (proj2 (proj2 (proj2
           (C7_size_default_clamp_and_unit (fun s => s))))))
           (sizeUnitQuery "3" "Kb") "kb"%string 1024);
    reflexivity.
Defined.

Lemma C10_witness :
  (exists (events : list Event) (m' : Mem),
     dataHandler (fun s => s) None (mkTransport 0 None)
       (mkRequest "GET" (Some (sizeUnitQuery "18014398509481984" "KB")) [])
       Mem_init
     = Returns (events, m')
     /\ served events
        = pattern (dataHandler_size (fun s => s)
                     (sizeUnitQuery "18014398509481984" "KB"))
     /\ Z.of_nat (length (served events))
        = Z.max 0 (dataHandler_size (fun s => s)
                     (sizeUnitQuery "18014398509481984" "KB"))
     /\ (dataHandler_size (fun s => s)
           (sizeUnitQuery "18014398509481984" "KB") <= 0 ->
         served events = []))
  /\ dataHandler (fun s => s) None (mkTransport 0 None)
       (mkRequest "GET" None []) Mem_init
     = Panics "runtime error: invalid memory address or nil pointer dereference".
Proof.
  split.
  - apply (proj1 (proj2 (proj2 (proj2 (proj2
             (C10_scaling_wraps_and_data_path (fun s => s))))))
             None (mkTransport 0 None)
             (mkRequest "GET" (Some (sizeUnitQuery "18014398509481984" "KB")) [])
             (sizeUnitQuery "18014398509481984" "KB") Mem_init).
    + reflexivity.
    + apply reach_init.
  - apply (proj2 (proj2 (proj2 (proj2 (proj2
             (C10_scaling_wraps_and_data_path (fun s => s))))))
             None (mkTransport 0 None) (mkRequest "GET" None []) Mem_init).
    reflexivity.
Defined.


Lemma C8_witness :
  healthHandler decodeDecimal
    (mkRequest "POST" (Some ∅) (String.list_byte_of_string "{}"))
    currentHealthState_init
  = ([http_Error "invalid character" 400], currentHealthState_init).
Proof.
  apply (proj1 (C8_health_decode_error_leaves_state decodeDecimal)
           (mkRequest "POST" (Some ∅) (String.list_byte_of_string "{}"))
           currentHealthState_init "invalid character"%string);
    reflexivity.
Defined.

(** The scenario of the health route: 503 is written and read back, then
    200 is written and read back. *)
Example health_503_then_200 :
  (serve decodeDecimal
     [mkRequest "POST" (Some ∅) (String.list_byte_of_string "503");
      mkRequest "GET" (Some ∅) [];
      mkRequest "POST" (Some ∅) (String.list_byte_of_string "200");
      mkRequest "GET" (Some ∅) []]
     currentHealthState_init).1
  = [[fmt_Printf "Update health check status code [%d]\n" 503];
     [WriteHeader 503];
     [fmt_Printf "Update health check status code [%d]\n" 200];
     [WriteHeader 200]].
Proof. reflexivity. Qed.

(** ** Request metrics *)

Lemma sum_insert (f : Caller -> Z) (l : list Caller) :
  forall (t : nat) (c c' : Caller),
    l !! t = Some c ->
    sumZ f (<[t := c']> l) = sumZ f l + (f c' - f c).
Proof.
  induction l as [|x l IH]; intros [|t] c c'; simpl; try done.
  - intros [= ->]. lia.
  - intros Ht. rewrite (IH _ _ c' Ht). lia.
Qed.

Lemma sum_nonneg (f : Caller -> Z) (l : list Caller) :
  (forall c, 0 <= f c) -> 0 <= sumZ f l.
Proof.
  intros Hf. induction l as [|x l IH]; simpl; [lia|]. specialize (Hf x). lia.
Qed.

Lemma sum_constant (f : Caller -> Z) (k : Z) (l : list Caller) :
  Forall (fun c => f c = k) l -> sumZ f l = k * Z.of_nat (length l).
Proof.
  induction 1 as [|x l Hx _ IH]; simpl sumZ; simpl length; lia.
Qed.

Lemma Inv_init (M K : nat) : Inv M K (Metrics_init M K).
Proof.
  unfold Inv, Metrics_init, inFlight, total, maxInFlight, sumOver. simpl.
  split; [apply length_replicate|].
  split; [apply Forall_replicate; unfold caller_ok, inFlightOf; simpl; lia|].
  assert (Hzero : forall f : Caller -> Z, f (mkCaller Idle K 0 0) = 0 ->
            0 = sumZ f (replicate M (mkCaller Idle K 0 0))).
  { intros f Hf. rewrite (sum_constant f 0); [lia|]. by apply Forall_replicate. }
  split; [by apply Hzero|]. split; [by apply Hzero|].
  split; [lia|]. split; [lia|].
  split; [by apply Forall_replicate|]. split; [by left|constructor].
Qed.

Lemma lookup_insert_here (l : list Caller) (t : nat) (c c' : Caller) :
  l !! t = Some c -> <[t := c']> l !! t = Some c'.
Proof.
  intros Ht. apply list_lookup_insert_eq. by eapply lookup_lt_Some.
Qed.

Lemma witness_insert (l : list Caller) (t : nat) (c c' : Caller) (p : Z) :
  l !! t = Some c ->
  (pending c = Some p -> pending c' = Some p) ->
  (exists i c0, l !! i = Some c0 /\ pending c0 = Some p) ->
  exists i c0, <[t := c']> l !! i = Some c0 /\ pending c0 = Some p.
Proof.
  intros Ht Himp (i & c0 & Hi & Hp).
  destruct (decide (i = t)) as [->|Hne].
  - exists t, c'. split; [by eapply lookup_insert_here|].
    rewrite Ht in Hi. injection Hi as <-. auto.
  - exists i, c0. by rewrite list_lookup_insert_ne.
Qed.

(** The first four parts of the invariant after caller [t] moved from [c]
    to [c']. *)
Ltac counters_after_move Ht :=
  unfold inFlight, total, sumOver in *; simpl in *;
  try rewrite !(sum_insert _ _ _ _ _ Ht);
  unfold caller_ok in *; unfold inFlightOf, countedOf in *; simpl in *; try lia.

Lemma step_Inv (M K : nat) (t : nat) (w : Metrics) :
  Inv M K w -> Inv M K (ServeHTTP_step t w).
Proof.
  intros Hinv. pose proof Hinv as
    (Hlen & Hok & Hin & Htot & Hmax & Hcur & Hpend & Hwit & Hupd).
  unfold ServeHTTP_step. destruct (callers w !! t) as [c|] eqn:Ht; [|done].
  pose proof (Forall_lookup_1 _ _ _ _ Hok Ht) as Hc.
  pose proof (Forall_lookup_1 _ _ _ _ Hpend Ht) as Hcp.
  destruct w as [conc tot mx cs pk ups].
  destruct c as [pt td st fn]. unfold maxInFlight in *. simpl in *.
  destruct pt as [|k|k| |]; simpl in *.
  - (* concurrentRequestCount.Add(1) *)
    destruct td as [|td]; [done|].
    unfold Inv, maxInFlight. simpl.
    split; [by rewrite length_insert|].
    split; [apply Forall_insert; [done|]; counters_after_move Ht|].
    split; [counters_after_move Ht|]. split; [counters_after_move Ht|].
    split; [lia|]. split; [unfold inFlight; simpl; lia|].
    split.
    { apply Forall_insert.
      - eapply Forall_impl; [exact Hpend|]. intros c0 H0 k0 Hk0.
        specialize (H0 k0 Hk0). lia.
      - intros k0 [= <-]. lia. }
    split; [|done].
    destruct (Z.le_gt_cases pk (Value conc + 1)) as [Hle|Hgt].
    + right. exists t, (mkCaller (Started (Value conc + 1)) td st fn).
      split; [by eapply lookup_insert_here|]. unfold pending. simpl. f_equal. lia.
    + replace (Z.max pk (Value conc + 1)) with pk by lia.
      destruct Hwit as [Heq|Hex]; [by left|right].
      eapply witness_insert; [exact Ht|done|exact Hex].
  - (* totalRequestCount.Add(1) *)
    unfold Inv, maxInFlight. simpl.
    split; [by rewrite length_insert|].
    split; [apply Forall_insert; [done|]; counters_after_move Ht|].
    split; [counters_after_move Ht|]. split; [counters_after_move Ht|].
    split; [lia|]. split; [done|].
    split; [by apply Forall_insert|]. split; [|done].
    destruct Hwit as [Heq|Hex]; [by left|right].
    eapply witness_insert; [exact Ht|done|exact Hex].
  - (* maxConcurrentRequestCount.Update(count) *)
    pose proof (Hcp k eq_refl) as Hk.
    assert (Hupdate : MaxValue (expvarMaxInt_Update mx k) = Z.max (MaxValue mx) k).
    { unfold expvarMaxInt_Update. destruct (Z.ltb_spec (MaxValue mx) k); simpl; lia. }
    unfold Inv, maxInFlight. simpl. rewrite Hupdate.
    split; [by rewrite length_insert|].
    split; [apply Forall_insert; [done|]; counters_after_move Ht|].
    split; [counters_after_move Ht|]. split; [counters_after_move Ht|].
    split; [lia|]. split; [done|].
    split; [by apply Forall_insert|].
    split.
    { destruct Hwit as [Heq|(i & c0 & Hi & Hp)]; [left; lia|].
      destruct (decide (i = t)) as [->|Hne].
      - rewrite Ht in Hi. injection Hi as <-. simpl in Hp.
        injection Hp as ->. left. lia.
      - right. exists i, c0. by rewrite list_lookup_insert_ne. }
    constructor; [lia|].
    eapply Forall_impl; [exact Hupd|]. simpl. intros a Ha. lia.
  - (* m.nextHandler(writer, request) *)
    unfold Inv, maxInFlight. simpl.
    split; [by rewrite length_insert|].
    split; [apply Forall_insert; [done|]; counters_after_move Ht|].
    split; [counters_after_move Ht|]. split; [counters_after_move Ht|].
    split; [lia|]. split; [done|].
    split; [by apply Forall_insert|]. split; [|done].
    destruct Hwit as [Heq|Hex]; [by left|right].
    eapply witness_insert; [exact Ht|done|exact Hex].
  - (* concurrentRequestCount.Add(-1) *)
    unfold inFlight in Hcur. simpl in Hcur.
    replace (Z.max pk (Value conc + -1)) with pk by lia.
    unfold Inv, maxInFlight. simpl.
    split; [by rewrite length_insert|].
    split; [apply Forall_insert; [done|]; counters_after_move Ht|].
    split; [counters_after_move Ht|]. split; [counters_after_move Ht|].
    split; [lia|]. split; [unfold inFlight; simpl; lia|].
    split; [by apply Forall_insert|]. split; [|done].
    destruct Hwit as [Heq|Hex]; [by left|right].
    eapply witness_insert; [exact Ht|done|exact Hex].
Qed.

Lemma run_Inv (M K : nat) (sched : list nat) :
  forall w, Inv M K w -> Inv M K (run sched w).
Proof.
  unfold run. induction sched as [|t sched IH]; intros w Hw; [done|].
  simpl. by apply IH, step_Inv.
Qed.

Lemma reachable_Inv (M K : nat) (sched : list nat) :
  Inv M K (run sched (Metrics_init M K)).
Proof. apply run_Inv, Inv_init. Qed.

Lemma run_snoc (sched : list nat) (t : nat) (w : Metrics) :
  run (sched ++ [t]) w = ServeHTTP_step t (run sched w).
Proof. unfold run. by rewrite fold_left_app. Qed.

Lemma run_cons (sched : list nat) (t : nat) (w : Metrics) :
  run (t :: sched) w = run sched (ServeHTTP_step t w).
Proof. reflexivity. Qed.

(** One action raises the recorded peak to the new in-flight value, no
    more. *)
Lemma step_peak (t : nat) (w : Metrics) :
  inFlight w <= peak w ->
  peak (ServeHTTP_step t w) = Z.max (peak w) (inFlight (ServeHTTP_step t w)).
Proof.
  intros Hle. unfold ServeHTTP_step, inFlight in *.
  destruct (callers w !! t) as [c|]; [|lia].
  destruct (at_point c); simpl; try lia.
  destruct (todo c); simpl; lia.
Qed.

Lemma peakAlong_ge_first (sched : list nat) (w : Metrics) :
  inFlight w <= peakAlong sched w.
Proof. destruct sched; simpl; lia. Qed.

Lemma peak_run (sched : list nat) :
  forall w, inFlight w <= peak w ->
    peak (run sched w) = Z.max (peak w) (peakAlong sched w).
Proof.
  induction sched as [|t sched IH]; intros w Hle.
  - simpl. lia.
  - rewrite run_cons. pose proof (step_peak t w Hle) as Hstep.
    rewrite IH by lia. simpl.
    pose proof (peakAlong_ge_first sched (ServeHTTP_step t w)). lia.
Qed.

Lemma peak_is_peakAlong (M K : nat) (sched : list nat) :
  peak (run sched (Metrics_init M K)) = peakAlong sched (Metrics_init M K).
Proof.
  rewrite peak_run by (simpl; unfold inFlight; simpl; lia).
  pose proof (peakAlong_ge_first sched (Metrics_init M K)) as H.
  unfold inFlight in H at 1. simpl in *. lia.
Qed.

(** The in-flight counter counts the calls under way plus the difference
    of the completed ones. *)
Lemma inFlight_decomposition (K : nat) (l : list Caller) :
  Forall (caller_ok K) l ->
  sumZ inFlightOf l
  = sumZ (fun c => if midStart c then 1 else 0) l
    + sumZ (fun c => Z.of_nat (starts c)) l
    - sumZ (fun c => Z.of_nat (finishes c)) l.
Proof.
  induction 1 as [|c l [Hc _] _ IH]; simpl; [lia|].
  rewrite IH. unfold inFlightOf, midStart. destruct (at_point c); lia.
Qed.

Lemma quiescent_no_start_in_progress (l : list Caller) :
  forallb (fun c => negb (midStart c)) l = true ->
  sumZ (fun c => if midStart c then 1 else 0) l = 0.
Proof.
  induction l as [|c l IH]; simpl; [done|].
  intros [Hc Hl]%andb_prop. rewrite (IH Hl).
  by destruct (midStart c).
Qed.

Lemma allDone_sums (K : nat) (l : list Caller) :
  Forall (caller_ok K) l ->
  forallb callerDone l = true ->
  sumZ inFlightOf l = 0
  /\ sumZ countedOf l = Z.of_nat K * Z.of_nat (length l).
Proof.
  induction 1 as [|c l [_ Hc] _ IH]; simpl; [lia|].
  intros [Hd Hl]%andb_prop. destruct (IH Hl) as [-> ->].
  unfold inFlightOf, countedOf, callerDone in *.
  destruct (at_point c); try done. destruct (todo c); [lia|done].
Qed.

Lemma step_max_monotone (t : nat) (w : Metrics) :
  maxInFlight w <= maxInFlight (ServeHTTP_step t w).
Proof.
  unfold ServeHTTP_step, maxInFlight.
  destruct (callers w !! t) as [c|]; [|lia].
  destruct (at_point c); simpl; try lia.
  - destruct (todo c); simpl; lia.
  - unfold expvarMaxInt_Update.
    destruct (Z.ltb_spec (MaxValue (maxConcurrentRequestCount w)) count);
      simpl; lia.
Qed.

Lemma run_max_monotone (sched : list nat) :
  forall w, maxInFlight w <= maxInFlight (run sched w).
Proof.
  induction sched as [|t sched IH]; intros w; [simpl; lia|].
  rewrite run_cons. pose proof (step_max_monotone t w).
  pose proof (IH (ServeHTTP_step t w)). lia.
Qed.

Lemma expvarMaxInt_Update_max (v : expvarMaxInt) (c : Z) :
  MaxValue (expvarMaxInt_Update v c) = Z.max (MaxValue v) c.
Proof.
  unfold expvarMaxInt_Update. destruct (Z.ltb_spec (MaxValue v) c); simpl; lia.
Qed.

Lemma updateAll_bounds (cs : list Z) :
  forall v,
    MaxValue v <= MaxValue (updateAll v cs)
    /\ Forall (fun a => a <= MaxValue (updateAll v cs)) cs.
Proof.
  unfold updateAll.
  induction cs as [|c cs IH]; intros v; simpl; [split; [lia|constructor]|].
  destruct (IH (expvarMaxInt_Update v c)) as [Hge Hall].
  rewrite expvarMaxInt_Update_max in Hge.
  split; [lia|]. constructor; [lia|done].
Qed.

(** The stored maximum is what the calls of [Update] made so far, in their
    order, leave of the initial zero. *)
Lemma max_is_updateAll (M K : nat) (sched : list nat) :
  maxConcurrentRequestCount (run sched (Metrics_init M K))
  = updateAll (mkExpvarMaxInt 0) (rev (updates (run sched (Metrics_init M K)))).
Proof.
  induction sched as [|t sched IH] using rev_ind; [reflexivity|].
  rewrite run_snoc. set (w := run sched (Metrics_init M K)) in *.
  unfold ServeHTTP_step. destruct (callers w !! t) as [c|]; [|done].
  destruct (at_point c); simpl; try done.
  - by destruct (todo c).
  - unfold updateAll in *. by rewrite fold_left_app, <- IH.
Qed.

(** No caller ever waits for another: a caller that is not done can act,
    and each of its actions brings the end one action closer. *)
Lemma not_done_lookup (l : list Caller) :
  forallb callerDone l = false ->
  exists t c, l !! t = Some c /\ callerDone c = false.
Proof.
  induction l as [|c l IH]; simpl; [done|].
  destruct (callerDone c) eqn:Hc.
  - intros Hl. destruct (IH Hl) as (t & c' & Ht & Hc'). by exists (S t), c'.
  - intros _. by exists 0%nat, c.
Qed.

Lemma actionsLeft_nonneg (l : list Caller) : 0 <= sumZ actionsLeft l.
Proof.
  apply sum_nonneg. intros c. unfold actionsLeft. destruct (at_point c); lia.
Qed.

Lemma step_actionsLeft (t : nat) (w : Metrics) (c : Caller) :
  callers w !! t = Some c -> callerDone c = false ->
  sumZ actionsLeft (callers (ServeHTTP_step t w)) = sumZ actionsLeft (callers w) - 1.
Proof.
  intros Ht Hc. unfold ServeHTTP_step. rewrite Ht.
  unfold callerDone in Hc.
  destruct c as [pt td st fn]. simpl in *.
  destruct pt; [destruct td; [done|]|..]; simpl;
    rewrite (sum_insert _ _ _ _ _ Ht); unfold actionsLeft; simpl; lia.
Qed.

Lemma run_to_completion (n : nat) :
  forall w, sumZ actionsLeft (callers w) <= Z.of_nat n ->
    exists more, allDone (run more w) = true.
Proof.
  induction n as [|n IH]; intros w Hn.
  - destruct (allDone w) eqn:Hd; [by exists []|].
    destruct (not_done_lookup _ Hd) as (t & c & Ht & Hc).
    pose proof (step_actionsLeft t w c Ht Hc).
    pose proof (actionsLeft_nonneg (callers (ServeHTTP_step t w))). lia.
  - destruct (allDone w) eqn:Hd; [by exists []|].
    destruct (not_done_lookup _ Hd) as (t & c & Ht & Hc).
    pose proof (step_actionsLeft t w c Ht Hc) as Hdec.
    destruct (IH (ServeHTTP_step t w)) as [more Hmore]; [lia|].
    by exists (t :: more).
Qed.

Lemma quiescent_no_pending (l : list Caller) (i : nat) (c : Caller) (k : Z) :
  forallb (fun c => negb (midStart c)) l = true ->
  l !! i = Some c -> pending c = Some k -> False.
Proof.
  intros Hq Hi Hp. rewrite forallb_forall in Hq.
  assert (Hin : In c l) by (apply list_elem_of_In; by eapply list_elem_of_lookup_2).
  specialize (Hq c Hin). unfold midStart, pending in *.
  by destruct (at_point c).
Qed.

(** C4, as the code has it. Under every interleaving the in-flight counter
    equals the number of [onHandleRequestStart] calls that have performed
    their increment, returned or still under way, minus the number of
    completed [onHandleRequestFinish] calls; it equals completed starts
    minus completed finishes whenever no start is under way; it is never
    negative; once [M] callers have each completed their [K] pairs it
    is 0 and the total counter is [K * M]; and every interleaving can be
    continued until all of them have. *)
Theorem C4_in_flight_accounting (M K : nat) (sched : list nat) :
  inFlight (run sched (Metrics_init M K))
  = completedStarts (run sched (Metrics_init M K))
    + startsInProgress (run sched (Metrics_init M K))
    - completedFinishes (run sched (Metrics_init M K))
  /\ 0 <= startsInProgress (run sched (Metrics_init M K))
  /\ (quiescent (run sched (Metrics_init M K)) = true ->
      inFlight (run sched (Metrics_init M K))
      = completedStarts (run sched (Metrics_init M K))
        - completedFinishes (run sched (Metrics_init M K)))
  /\ 0 <= inFlight (run sched (Metrics_init M K))
  /\ (allDone (run sched (Metrics_init M K)) = true ->
      inFlight (run sched (Metrics_init M K)) = 0
      /\ total (run sched (Metrics_init M K)) = Z.of_nat K * Z.of_nat M)
  /\ (exists more, allDone (run (sched ++ more) (Metrics_init M K)) = true).
Proof.
  assert (Hend : exists more,
             allDone (run (sched ++ more) (Metrics_init M K)) = true).
  { destruct (run_to_completion
                (Z.to_nat (sumZ actionsLeft (callers (run sched (Metrics_init M K)))))
                (run sched (Metrics_init M K))) as [more Hmore]; [lia|].
    exists more. unfold run in *. by rewrite fold_left_app. }
  destruct (reachable_Inv M K sched) as (Hlen & Hok & Hin & Htot & _).
  set (w := run sched (Metrics_init M K)) in *.
  pose proof (inFlight_decomposition K (callers w) Hok) as Hdec.
  unfold completedStarts, completedFinishes, startsInProgress, sumOver in *.
  assert (Hmid : 0 <= sumZ (fun c => if midStart c then 1 else 0) (callers w)).
  { apply sum_nonneg. intros c. destruct (midStart c); lia. }
  assert (Hnn : 0 <= sumZ inFlightOf (callers w)).
  { apply sum_nonneg. intros c. unfold inFlightOf. destruct (at_point c); lia. }
  split; [lia|]. split; [done|]. split.
  { intros Hq. apply quiescent_no_start_in_progress in Hq. lia. }
  split; [lia|].
  split; [|done].
  intros Hdone. destruct (allDone_sums K (callers w) Hok Hdone) as [H0 HK].
  split; [lia|]. rewrite Htot, HK, Hlen. done.
Qed.

(** The claim as stated fails while a call is under way: after the first
    action of the only caller the counter is 1 and no call of
    [onHandleRequestStart] has completed. *)
Lemma C4_counterexample :
  inFlight (run [0%nat] (Metrics_init 1 1)) = 1
  /\ completedStarts (run [0%nat] (Metrics_init 1 1)) = 0
  /\ completedFinishes (run [0%nat] (Metrics_init 1 1)) = 0
  /\ inFlight (run [0%nat] (Metrics_init 1 1))
     <> completedStarts (run [0%nat] (Metrics_init 1 1))
        - completedFinishes (run [0%nat] (Metrics_init 1 1)).
Proof. repeat split; vm_compute; congruence. Qed.

(** Two callers, two requests each, interleaved and run to the end. *)
Lemma C4_witness :
  inFlight (run [0; 1; 1; 0; 0; 1; 1; 0; 1; 0; 0; 1; 1; 1; 1; 0; 0; 0; 1; 0]%nat
              (Metrics_init 2 2)) = 0
  /\ total (run [0; 1; 1; 0; 0; 1; 1; 0; 1; 0; 0; 1; 1; 1; 1; 0; 0; 0; 1; 0]%nat
              (Metrics_init 2 2)) = Z.of_nat 2 * Z.of_nat 2.
Proof.
  apply (proj1 (proj2 (proj2 (proj2 (proj2
           (C4_in_flight_accounting 2 2
              [0; 1; 1; 0; 0; 1; 1; 0; 1; 0; 0; 1; 1; 1; 1; 0; 0; 0; 1; 0]%nat)))))).
  reflexivity.
Defined.

(** C5, as the code has it. [Update] raises the stored maximum to the
    candidate exactly when the candidate exceeds it; over any sequence of
    [Update] calls, and under any interleaving of the middleware, the
    stored maximum never decreases and is at least every value passed to
    it so far; it never exceeds the historical peak of the in-flight
    counter and equals it whenever no call of [onHandleRequestStart] is
    between its increment and its [Update]; otherwise such a call holds
    the peak as the count it has yet to pass on. *)
Theorem C5_max_in_flight_tracks_peak :
  (forall (v : expvarMaxInt) (c : Z),
     (MaxValue v < c -> expvarMaxInt_Update v c = mkExpvarMaxInt c)
     /\ (c <= MaxValue v -> expvarMaxInt_Update v c = v))
  /\ (forall (v : expvarMaxInt) (cs more : list Z),
        MaxValue v <= MaxValue (updateAll v cs)
        /\ MaxValue (updateAll v cs) <= MaxValue (updateAll v (cs ++ more))
        /\ Forall (fun a => a <= MaxValue (updateAll v (cs ++ more))) cs)
  /\ (forall (M K : nat) (sched more : list nat),
        maxConcurrentRequestCount (run sched (Metrics_init M K))
        = updateAll (mkExpvarMaxInt 0)
            (rev (updates (run sched (Metrics_init M K))))
        /\ maxInFlight (run sched (Metrics_init M K))
           <= maxInFlight (run (sched ++ more) (Metrics_init M K))
        /\ Forall (fun a => a <= maxInFlight (run sched (Metrics_init M K)))
             (updates (run sched (Metrics_init M K)))
        /\ maxInFlight (run sched (Metrics_init M K))
           <= peakAlong sched (Metrics_init M K)
        /\ (quiescent (run sched (Metrics_init M K)) = true ->
            maxInFlight (run sched (Metrics_init M K))
            = peakAlong sched (Metrics_init M K))
        /\ (maxInFlight (run sched (Metrics_init M K))
            = peakAlong sched (Metrics_init M K)
            \/ exists i c,
                 callers (run sched (Metrics_init M K)) !! i = Some c
                 /\ pending c = Some (peakAlong sched (Metrics_init M K)))).
Proof.
  split.
  { intros v c. unfold expvarMaxInt_Update.
    destruct (Z.ltb_spec (MaxValue v) c); split; (done || lia). }
  split.
  { intros v cs more.
    destruct (updateAll_bounds cs v) as [Hge Hall].
    assert (Happ : updateAll v (cs ++ more) = updateAll (updateAll v cs) more).
    { unfold updateAll. apply fold_left_app. }
    destruct (updateAll_bounds more (updateAll v cs)) as [Hge' _].
    rewrite Happ. split; [done|]. split; [done|].
    eapply Forall_impl; [exact Hall|]. simpl. intros a Ha. lia. }
  intros M K sched more.
  destruct (reachable_Inv M K sched)
    as (_ & _ & _ & _ & Hmax & _ & _ & Hwit & Hupd).
  rewrite <- (peak_is_peakAlong M K sched).
  split; [apply max_is_updateAll|].
  split.
  { unfold run. rewrite fold_left_app. apply run_max_monotone. }
  split; [done|]. split; [done|].
  split; [|destruct Hwit as [Heq|Hex]; [by left|by right]].
  intros Hq. destruct Hwit as [Heq|(i & c & Hi & Hp)]; [done|].
  by destruct (quiescent_no_pending _ _ _ _ Hq Hi Hp).
Qed.

(** The claim as stated fails between an increment and its [Update]:
    caller 0 increments the in-flight counter to 1, caller 1 to 2, then
    caller 0 completes its start with [Update(1)]; the stored maximum is 1
    while the in-flight counter is, and has been, 2. *)
Lemma C5_counterexample :
  maxInFlight (run [0; 1; 0; 0]%nat (Metrics_init 2 1)) = 1
  /\ updates (run [0; 1; 0; 0]%nat (Metrics_init 2 1)) = [1]
  /\ completedStarts (run [0; 1; 0; 0]%nat (Metrics_init 2 1)) = 1
  /\ inFlight (run [0; 1; 0; 0]%nat (Metrics_init 2 1)) = 2
  /\ peakAlong [0; 1; 0; 0]%nat (Metrics_init 2 1) = 2
  /\ maxInFlight (run [0; 1; 0; 0]%nat (Metrics_init 2 1))
     <> peakAlong [0; 1; 0; 0]%nat (Metrics_init 2 1).
Proof. repeat split; vm_compute; congruence. Qed.

(** Three callers start together; once all three starts have returned the
    stored maximum is the peak, 3. *)
Lemma C5_witness :
  maxInFlight (run [0; 1; 2; 2; 1; 0; 0; 2; 1]%nat (Metrics_init 3 1))
  = peakAlong [0; 1; 2; 2; 1; 0; 0; 2; 1]%nat (Metrics_init 3 1).
Proof.
  apply (proj2 (proj2 C5_max_in_flight_tracks_peak) 3%nat 1%nat
           [0; 1; 2; 2; 1; 0; 0; 2; 1]%nat []).
  reflexivity.
Defined.

(** ** The byte buffer on runes outside ASCII *)

Example utf8_AppendRune_examples :
  utf8_AppendRune 233 = [byteZ 195; byteZ 169]
  /\ utf8_AppendRune 8364 = [byteZ 226; byteZ 130; byteZ 172]
  /\ utf8_AppendRune 128512 = [byteZ 240; byteZ 159; byteZ 152; byteZ 128]
  /\ utf8_AppendRune 55296 = [byteZ 239; byteZ 191; byteZ 189]
  /\ utf8_AppendRune (-1) = [byteZ 239; byteZ 191; byteZ 189]
  /\ Bytes (Buffer_WriteRune (mkBuffer []) marker) = [markerByte].
Proof. repeat split; reflexivity. Qed.

(** ** The data route at concrete requests *)

Example dataHandler_size_examples :
  dataHandler_size (fun s => s) ∅ = 1
  /\ dataHandler_size (fun s => s) (sizeUnitQuery "10" "") = 10
  /\ dataHandler_size (fun s => s) (sizeUnitQuery "-5" "mb") = 0
  /\ dataHandler_size (fun s => s) (sizeUnitQuery "abc" "kB") = 1024
  /\ dataHandler_size (fun s => s) (sizeUnitQuery "2" "Gb") = 2147483648
  /\ dataHandler_size (fun s => s) (sizeUnitQuery "3" "TB") = 3298534883328
  /\ dataHandler_size (fun s => s) (sizeUnitQuery "3" "bytes") = 3
  /\ dataHandler_size (fun s => s) (sizeUnitQuery "1e3" "kb") = 1024.
Proof. repeat split; vm_compute; reflexivity. Qed.

Example dataHandler_length_10 :
  (fun r => served r.1) <$>
    returned (dataHandler (fun s => s) None (mkTransport 10 None)
                (mkRequest "GET" (Some (sizeUnitQuery "10" "")) []) Mem_init)
  = Some (String.list_byte_of_string "|ABCDEFGH|").
Proof. vm_compute. reflexivity. Qed.

(* ===================================================================== *)
(** * Part III: further properties of the code                            *)
(* ===================================================================== *)

(** ** The generated pattern *)

Lemma CHARSET_has_no_marker (n : nat) :
  (n < 27)%nat -> byte_of_ascii <$> String.get n CHARSET <> Some markerByte.
Proof.
  intros Hn. do 27 (destruct n as [|n]; [discriminate|]). lia.
Qed.

Lemma charAt_not_marker (i : Z) : charAt i <> markerByte.
Proof.
  pose proof (charAt_index i) as Hc. unfold index in Hc.
  pose proof (Z.mod_pos_bound i 27 ltac:(lia)) as Hb.
  replace (len CHARSET) with 27 in Hc by reflexivity.
  destruct (Z.leb_spec 0 (i mod 27)); [|lia].
  destruct (Z.ltb_spec (i mod 27) 27); [|lia]. cbn [andb] in Hc.
  intros Heq. rewrite Heq in Hc.
  by apply (CHARSET_has_no_marker (Z.to_nat (i mod 27))); [lia|].
Qed.

Lemma pattern_first (L : Z) : 2 <= L -> pattern L !! 0%nat = Some markerByte.
Proof.
  intros HL. unfold pattern.
  destruct (Z.leb_spec L 0); [lia|]. by destruct (Z.eqb_spec L 1); [lia|].
Qed.

Lemma pattern_last (L : Z) :
  2 <= L -> pattern L !! Z.to_nat (L - 1) = Some markerByte.
Proof.
  intros HL. unfold pattern.
  destruct (Z.leb_spec L 0); [lia|]. destruct (Z.eqb_spec L 1); [lia|].
  replace (Z.to_nat (L - 1)) with (S (Z.to_nat (L - 2))) by lia.
  rewrite lookup_cons, lookup_app_r by (rewrite length_fmap, length_seqZ; lia).
  rewrite length_fmap, length_seqZ, Nat.sub_diag. reflexivity.
Qed.

(** X1: The marker stands at the two ends of the generated content and nowhere
    in between, so the ends of a payload can be told from its filler. *)
Theorem X1_marker_only_at_the_ends (L i : Z) :
  2 <= L -> L < 2 ^ 63 -> 0 <= i < L ->
  exists b : Buffer,
    fillContent L = Returns b
    /\ (Bytes b !! Z.to_nat i = Some markerByte <-> i = 0 \/ i = L - 1).
Proof.
  intros HL Hmax Hi. exists (mkBuffer (pattern L)).
  split; [apply (writeContent_Buffer (mkBuffer [])); unfold inRange; simpl; lia|].
  simpl. split.
  - intros Hm. destruct (Z.eq_dec i 0) as [|H0]; [by left|].
    destruct (Z.eq_dec i (L - 1)) as [|H1]; [by right|].
    rewrite pattern_lookup_filler in Hm by lia.
    injection Hm as Hm. by apply charAt_not_marker in Hm.
  - intros [-> | ->]; [by apply pattern_first | by apply pattern_last].
Qed.

Lemma X1_witness :
  exists b : Buffer,
    fillContent 40 = Returns b
    /\ (Bytes b !! Z.to_nat 27 = Some markerByte <-> 27 = 0 \/ 27 = 40 - 1).
Proof. apply (X1_marker_only_at_the_ends 40 27); lia. Defined.

Lemma charAt_period (i : Z) : charAt (i + 27) = charAt i.
Proof.
  unfold charAt. replace (i + 27) with (i + 1 * 27) by lia.
  by rewrite Z.mod_add by lia.
Qed.

(** X2: The filler has period 27, and the content for a longer length repeats
    the content for a shorter one up to the closing marker of the shorter:
    a client can check a payload from its position alone. *)
Theorem X2_filler_is_periodic_and_prefix_stable :
  (forall L i : Z,
     L < 2 ^ 63 -> 1 <= i -> i + 27 <= L - 2 ->
     exists b : Buffer,
       fillContent L = Returns b
       /\ is_Some (Bytes b !! Z.to_nat i)
       /\ Bytes b !! Z.to_nat (i + 27) = Bytes b !! Z.to_nat i)
  /\ (forall L L' i : Z,
        2 <= L -> L <= L' -> L' < 2 ^ 63 -> 0 <= i < L - 1 ->
        exists b b' : Buffer,
          fillContent L = Returns b /\ fillContent L' = Returns b'
          /\ is_Some (Bytes b !! Z.to_nat i)
          /\ Bytes b' !! Z.to_nat i = Bytes b !! Z.to_nat i).
Proof.
  split.
  - intros L i Hmax Hi Hi'. exists (mkBuffer (pattern L)).
    split; [apply (writeContent_Buffer (mkBuffer [])); unfold inRange; simpl; lia|].
    simpl. rewrite !pattern_lookup_filler by lia.
    split; [eauto|]. by rewrite charAt_period.
  - intros L L' i HL HLL Hmax Hi.
    exists (mkBuffer (pattern L)), (mkBuffer (pattern L')).
    split; [apply (writeContent_Buffer (mkBuffer [])); unfold inRange; simpl; lia|].
    split; [apply (writeContent_Buffer (mkBuffer [])); unfold inRange; simpl; lia|].
    simpl. destruct (Z.eq_dec i 0) as [->|H0].
    + rewrite !pattern_first by lia. eauto.
    + rewrite !pattern_lookup_filler by lia. eauto.
Qed.

Lemma X2_witness :
  exists b b' : Buffer,
    fillContent 5 = Returns b /\ fillContent 90 = Returns b'
    /\ is_Some (Bytes b !! Z.to_nat 3)
    /\ Bytes b' !! Z.to_nat 3 = Bytes b !! Z.to_nat 3.
Proof.
  apply (proj2 X2_filler_is_periodic_and_prefix_stable 5 90 3); lia.
Defined.

(** ** Pooled and plain buffers *)

(** X3: [fillContentPooled] leaves in its pooled buffer the very bytes
    [fillContent] leaves in a fresh plain buffer, whatever the pool held
    and whichever buffer it handed out. *)
Theorem X3_pooled_fill_agrees_with_plain_fill
  (m : Mem) (choice : option nat) (L : Z) :
  reachable m -> inRange 64 L ->
  exists (plain : Buffer) (b : ptr) (m' : Mem),
    fillContent L = Returns plain
    /\ fillContentPooled choice L m = Returns (b, m')
    /\ BytesAt b m' = Some (Bytes plain)
    /\ Len b m' = Some (Buffer_Len plain).
Proof.
  intros Hreach Hr.
  destruct (fillContentPooled_ok choice L m (reachable_pool_ok _ Hreach) Hr)
    as (b & m' & Hfill & _ & Hbytes & _).
  exists (mkBuffer (pattern L)), b, m'.
  split; [by apply (writeContent_Buffer (mkBuffer []))|].
  split; [done|]. split; [done|].
  unfold Len, BytesAt, Buffer_Len in *. destruct (heap m' !! b); [|done].
  simpl in *. by injection Hbytes as ->.
Qed.

Lemma X3_witness :
  exists (plain : Buffer) (b : ptr) (m' : Mem),
    fillContent 9 = Returns plain
    /\ fillContentPooled (Some 2%nat) 9 Mem_init = Returns (b, m')
    /\ BytesAt b m' = Some (Bytes plain)
    /\ Len b m' = Some (Buffer_Len plain).
Proof.
  apply (X3_pooled_fill_agrees_with_plain_fill Mem_init (Some 2%nat) 9).
  - apply reach_init.
  - unfold inRange. simpl. lia.
Defined.

(** ** Ownership of pooled buffers *)

(** An acquisition either takes a pointer out of the pool or allocates the
    next address, and leaves every other buffer as it was. *)
Lemma GetPooledBuffer_facts (choice : option nat) (m : Mem) (b : ptr) (m' : Mem) :
  GetPooledBuffer choice m = (b, m') ->
  (forall p, p <> b -> heap m' !! p = heap m !! p)
  /\ ((b ∈ bufferPool m /\ heap m' = heap m /\ next m' = next m
       /\ S (length (bufferPool m')) = length (bufferPool m))
      \/ (b = next m /\ bufferPool m' = bufferPool m /\ next m' = S (next m))).
Proof.
  unfold GetPooledBuffer, bufferPool_Get, dummyProfile_Add.
  destruct (choice ≫= _) as [p|] eqn:Hc; simpl.
  - destruct choice as [k|]; [|done]. simpl in Hc.
    intros [= <- <-]. simpl. split; [done|]. left.
    split; [by eapply list_elem_of_lookup_2|]. split; [done|]. split; [done|].
    rewrite length_delete by eauto.
    apply lookup_lt_Some in Hc. lia.
  - unfold bufferPool_New. intros [= <- <-]. simpl. split; [|by right].
    intros q Hq. by rewrite lookup_insert_ne.
Qed.

Lemma fillContentPooled_facts (choice : option nat) (L : Z)
  (m : Mem) (b : ptr) (m' : Mem) :
  fillContentPooled choice L m = Returns (b, m') ->
  (forall p, p <> b -> heap m' !! p = heap m !! p)
  /\ ((b ∈ bufferPool m /\ next m' = next m
       /\ S (length (bufferPool m')) = length (bufferPool m))
      \/ (b = next m /\ bufferPool m' = bufferPool m /\ next m' = S (next m))).
Proof.
  unfold fillContentPooled.
  destruct (GetPooledBuffer choice m) as [b1 m1] eqn:Hget.
  destruct (GetPooledBuffer_facts _ _ _ _ Hget) as [Hframe Horigin].
  destruct (heap m1 !! b1) as [pb|]; [|done].
  destruct (writeContent pb L) as [pb'| |]; [|done..].
  intros [= <- <-]. simpl. split.
  - intros q Hq. rewrite lookup_insert_ne by done. by apply Hframe.
  - destruct Horigin as [(H1 & _ & H2 & H3)|H]; [left|right]; done.
Qed.

(** X4: Two requests that hold their buffers at the same time hold different
    buffers, and filling the second leaves the first as it was. *)
Theorem X4_held_buffers_are_distinct
  (m : Mem) (c1 c2 : option nat) (L1 L2 : Z) :
  reachable m -> inRange 64 L1 -> inRange 64 L2 ->
  exists (b1 : ptr) (m1 : Mem) (b2 : ptr) (m2 : Mem),
    fillContentPooled c1 L1 m = Returns (b1, m1)
    /\ fillContentPooled c2 L2 m1 = Returns (b2, m2)
    /\ b1 <> b2
    /\ BytesAt b1 m2 = Some (pattern L1)
    /\ BytesAt b2 m2 = Some (pattern L2).
Proof.
  intros Hreach H1 H2.
  destruct (fillContentPooled_ok c1 L1 m (reachable_pool_ok _ Hreach) H1)
    as (b1 & m1 & Hf1 & Hok1 & Hb1 & Hheld1).
  destruct (fillContentPooled_ok c2 L2 m1 Hok1 H2)
    as (b2 & m2 & Hf2 & Hok2 & Hb2 & Hheld2).
  destruct (fillContentPooled_facts _ _ _ _ _ Hf2) as [Hframe Horigin].
  assert (Hne : b1 <> b2).
  { intros <-. destruct Horigin as [(Hin & _)|(Hnew & _)]; [done|].
    destruct Hok1 as (_ & _ & Hnext). unfold BytesAt in Hb1.
    destruct (heap m1 !! b1) eqn:Hh; [|done].
    assert (b1 < next m1)%nat by (apply Hnext; eauto). lia. }
  exists b1, m1, b2, m2. repeat split; try done.
  unfold BytesAt in *. by rewrite Hframe.
Qed.

Lemma X4_witness :
  exists (b1 : ptr) (m1 : Mem) (b2 : ptr) (m2 : Mem),
    fillContentPooled None 4 Mem_init = Returns (b1, m1)
    /\ fillContentPooled (Some 0%nat) 6 m1 = Returns (b2, m2)
    /\ b1 <> b2
    /\ BytesAt b1 m2 = Some (pattern 4)
    /\ BytesAt b2 m2 = Some (pattern 6).
Proof.
  apply (X4_held_buffers_are_distinct Mem_init None (Some 0%nat) 4 6).
  - apply reach_init.
  - unfold inRange. simpl. lia.
  - unfold inRange. simpl. lia.
Defined.

(** X5: [Close] has no guard against a second call: closing a buffer twice
    puts it into the pool twice, the pool can then hand it to two
    requests, and the second request finds the first one's bytes in its
    buffer. *)
Theorem X5_double_Close_shares_a_buffer (m : Mem) (b : ptr) (L1 L2 : Z) :
  is_Some (heap m !! b) -> inRange 64 L1 -> inRange 64 L2 ->
  exists (m1 m2 : Mem),
    bufferPool (Close b (Close b m)) = b :: b :: bufferPool m
    /\ fillContentPooled (Some 0%nat) L1 (Close b (Close b m)) = Returns (b, m1)
    /\ fillContentPooled (Some 0%nat) L2 m1 = Returns (b, m2)
    /\ BytesAt b m2 = Some (pattern L1 ++ pattern L2).
Proof.
  intros [pb Hpb] H1 H2.
  assert (Hreset : forall hp : gmap ptr PooledBuffer,
            hp !! b = Some pb ->
            alter (fun pb => mkPooledBuffer (Buffer_Reset (Buffer_of pb))) b hp !! b
            = Some (mkPooledBuffer (mkBuffer []))).
  { intros hp Hhp. by rewrite lookup_alter_eq, Hhp. }
  unfold fillContentPooled, GetPooledBuffer, bufferPool_Get, dummyProfile_Add,
    Close, bufferPool_Put, dummyProfile_Remove, PooledBuffer_Reset.
  simpl. rewrite lookup_alter_eq, (Hreset _ Hpb). simpl.
  rewrite writeContent_PooledBuffer by done. simpl.
  eexists _, _. split; [done|]. split; [reflexivity|]. simpl.
  rewrite lookup_insert_eq, writeContent_PooledBuffer by done. simpl.
  split; [reflexivity|]. unfold BytesAt. simpl. by rewrite lookup_insert_eq.
Qed.

Lemma X5_witness :
  exists (m1 m2 : Mem),
    bufferPool (Close 0%nat (Close 0%nat (bufferPool_New Mem_init).2))
    = 0%nat :: 0%nat :: bufferPool (bufferPool_New Mem_init).2
    /\ fillContentPooled (Some 0%nat) 3
         (Close 0%nat (Close 0%nat (bufferPool_New Mem_init).2))
       = Returns (0%nat, m1)
    /\ fillContentPooled (Some 0%nat) 2 m1 = Returns (0%nat, m2)
    /\ BytesAt 0%nat m2 = Some (pattern 3 ++ pattern 2).
Proof.
  apply (X5_double_Close_shares_a_buffer (bufferPool_New Mem_init).2 0%nat 3 2).
  - simpl. rewrite lookup_insert_eq. eauto.
  - unfold inRange. simpl. lia.
  - unfold inRange. simpl. lia.
Defined.

(** ** The data route *)

Lemma io_Copy_frame (tr : Transport) (b : ptr) (m : Mem) (p : ptr) :
  p <> b -> heap (io_Copy tr b m).2 !! p = heap m !! p.
Proof.
  intros Hp. unfold io_Copy, PooledBuffer_Reset.
  destruct (heap m !! b) as [pb|]; [|done].
  destruct (0 <? length _)%nat; simpl; [|by rewrite lookup_alter_ne].
  destruct (failure tr); simpl; [by rewrite lookup_insert_ne|].
  destruct (_ =? _)%nat; simpl;
    [by rewrite lookup_alter_ne | by rewrite lookup_insert_ne].
Qed.

Lemma Close_facts (b : ptr) (m : Mem) :
  bufferPool (Close b m) = b :: bufferPool m
  /\ (forall p, p <> b -> heap (Close b m) !! p = heap m !! p).
Proof.
  split; [done|]. intros p Hp. simpl. by rewrite lookup_alter_ne.
Qed.

(** What [io.Copy] writes and reports, by what the connection does. *)
Lemma io_Copy_cases (tr : Transport) (b : ptr) (m : Mem) (bs : list byte) :
  BytesAt b m = Some bs ->
  (io_Copy tr b m).1
  = if (0 <? length bs)%nat then
      ([ResponseWriter_Write bs],
       match failure tr with
       | Some e => Some e
       | None => if (length bs <=? taken tr)%nat then None
                 else Some "short write"%string
       end)
    else ([], None).
Proof.
  unfold BytesAt, io_Copy. destruct (heap m !! b) as [pb|]; [|done].
  simpl. intros [= ->].
  destruct (0 <? length bs)%nat; [|done].
  destruct (failure tr); [done|].
  destruct (Nat.leb_spec (length bs) (taken tr)).
  - rewrite Nat.min_r by lia. by rewrite Nat.eqb_refl.
  - rewrite Nat.min_l by lia.
    by destruct (Nat.eqb_spec (taken tr) (length bs)); [lia|].
Qed.

Section DataRoute.

Variable lower : string -> string.

Lemma dataHandler_after_fill (choice : option nat) (tr : Transport)
  (r : Request) (q : gmap string (list string)) (m : Mem) (b : ptr) (m1 : Mem) :
  reparsedURL r = Some q ->
  fillContentPooled choice (dataHandler_size lower q) m = Returns (b, m1) ->
  dataHandler lower choice tr r m
  = if bool_decide (Values_Get q "attachment"
                      ∈ ["1"; "t"; "T"; "true"; "TRUE"; "True"]%string)
    then Returns ([Header_Add "Content-Disposition" "Attachment";
                   http_ServeContent "data.txt" (default [] (BytesAt b m1))],
                  Close b m1)
    else match io_Copy tr b m1 with
         | (events, Some e, m2) => Returns (events ++ [http_Error e 500], Close b m2)
         | (events, None, m2) => Returns (events, Close b m2)
         end.
Proof.
  intros Hq Hfill. unfold dataHandler, ParseBool. rewrite Hq. cbn [URL_Query].
  rewrite Hfill.
  destruct (bool_decide (_ ∈ ["1"; "t"; "T"; "true"; "TRUE"; "True"]%string));
    [done|].
  destruct (bool_decide _); by destruct (io_Copy tr b m1) as [[events [e|]] m2].
Qed.

(** X6: A request whose URL parses again is served and gives its buffer
    back: whether the content is served as an attachment, copied, or the
    copy fails, the buffer the request used is back in the pool and empty
    when [dataHandler] returns, no other buffer has been touched, and the
    pool has grown by at most one.  A request whose URL does not parse
    again is not served: [dataHandler] panics on the nil [*url.URL]. *)
Theorem X6_dataHandler_returns_its_buffer
  (choice : option nat) (tr : Transport) (r : Request) (m : Mem) :
  reachable m ->
  match reparsedURL r with
  | Some _ =>
      exists (b : ptr) (events : list Event) (m' : Mem),
        dataHandler lower choice tr r m = Returns (events, m')
        /\ head (bufferPool m') = Some b
        /\ Len b m' = Some 0%nat
        /\ (forall p, p <> b -> heap m' !! p = heap m !! p)
        /\ (length (bufferPool m) <= length (bufferPool m')
            <= S (length (bufferPool m)))%nat
        /\ reachable m'
  | None =>
      dataHandler lower choice tr r m
      = Panics "runtime error: invalid memory address or nil pointer dereference"
  end.
Proof.
  intros Hreach.
  destruct (reparsedURL r) as [q|] eqn:Hq;
    [|by apply dataHandler_nil_URL].
  destruct (dataHandler_spec lower choice tr r q m Hq Hreach)
    as (b & m1 & events & m' & Hfill & Hbytes & Hrun & _ & Hreach').
  destruct (fillContentPooled_facts _ _ _ _ _ Hfill) as [Hframe Horigin].
  assert (Hal : is_Some (heap m1 !! b)).
  { unfold BytesAt in Hbytes. destruct (heap m1 !! b); [eauto|done]. }
  assert (Hlen : (length (bufferPool m) <= S (length (bufferPool m1))
                  <= S (length (bufferPool m)))%nat).
  { destruct Horigin as [(_ & _ & Hl)|(_ & -> & _)]; lia. }
  exists b, events, m'. split; [done|].
  rewrite (dataHandler_after_fill _ _ _ _ _ _ _ Hq Hfill) in Hrun.
  destruct (bool_decide _).
  - injection Hrun as <- <-.
    destruct (Close_facts b m1) as [Hpool Hcf]. rewrite Hpool.
    split; [done|]. split; [by apply Close_Len|].
    split; [intros p Hp; rewrite Hcf by done; by apply Hframe|].
    split; [simpl; lia|done].
  - destruct (io_Copy_served tr b m1 _ Hbytes) as (_ & Hpool2 & Hal2).
    pose proof (io_Copy_frame tr b m1) as Hcopy.
    destruct (io_Copy tr b m1) as [[evs e] m2]. simpl in *.
    assert (m' = Close b m2) as -> by (destruct e; by injection Hrun as _ <-).
    destruct (Close_facts b m2) as [Hpool Hcf]. rewrite Hpool, Hpool2.
    split; [done|]. split; [by apply Close_Len|].
    split; [intros p Hp; rewrite Hcf, Hcopy by done; by apply Hframe|].
    split; [simpl; lia|done].
Qed.

(** X7: For a request whose URL parses again, the content is served as a
    download exactly when the [attachment] parameter is one of 1, t, T,
    true, TRUE, True; then the response is the [Content-Disposition] header
    followed by the whole content, handed over under the name [data.txt].
    Any other value, or none, means no such header and no such call. *)
Theorem X7_attachment_toggle
  (choice : option nat) (tr : Transport) (r : Request)
  (q : gmap string (list string)) (m : Mem) :
  reparsedURL r = Some q ->
  reachable m ->
  exists (events : list Event) (m' : Mem),
    dataHandler lower choice tr r m = Returns (events, m')
    /\ (Values_Get q "attachment"
          ∈ ["1"; "t"; "T"; "true"; "TRUE"; "True"]%string ->
        events = [Header_Add "Content-Disposition" "Attachment";
                  http_ServeContent "data.txt"
                    (pattern (dataHandler_size lower q))])
    /\ (Values_Get q "attachment"
          ∉ ["1"; "t"; "T"; "true"; "TRUE"; "True"]%string ->
        forall e, e ∈ events ->
          e = ResponseWriter_Write (pattern (dataHandler_size lower q))
          \/ exists msg, e = http_Error msg 500).
Proof.
  intros Hq Hreach.
  destruct (dataHandler_spec lower choice tr r q m Hq Hreach)
    as (b & m1 & events & m' & Hfill & Hbytes & Hrun & _ & _).
  exists events, m'. split; [done|].
  rewrite (dataHandler_after_fill _ _ _ _ _ _ _ Hq Hfill) in Hrun.
  case_bool_decide as Hatt.
  - injection Hrun as <- _. rewrite Hbytes. split; [done|]. by intros Hno.
  - split; [done|]. intros _.
    pose proof (io_Copy_cases tr b m1 _ Hbytes) as Hcases.
    destruct (io_Copy tr b m1) as [[evs e] m2]. simpl in Hcases.
    assert (Hevs : forall x, x ∈ evs ->
              x = ResponseWriter_Write (pattern (dataHandler_size lower q))).
    { intros x Hx. destruct (0 <? length _)%nat; injection Hcases as -> _.
      - by apply list_elem_of_singleton in Hx.
      - by apply not_elem_of_nil in Hx. }
    destruct e as [msg|]; injection Hrun as <- _.
    + intros x [Hx|Hx]%elem_of_app; [left; by apply Hevs|right].
      apply list_elem_of_singleton in Hx. eauto.
    + intros x Hx. left. by apply Hevs.
Qed.

(** X8: For a request whose URL parses again and that is served inline,
    an empty content is not written at all; a content the connection takes
    whole is written once and nothing else happens; and when the connection
    fails or takes less, the one write is followed by an error answer 500
    carrying the connection's message or "short write". *)
Theorem X8_inline_copy_outcomes
  (choice : option nat) (tr : Transport) (r : Request)
  (q : gmap string (list string)) (m : Mem) :
  reparsedURL r = Some q ->
  reachable m ->
  Values_Get q "attachment"
    ∉ ["1"; "t"; "T"; "true"; "TRUE"; "True"]%string ->
  exists (events : list Event) (m' : Mem),
    dataHandler lower choice tr r m = Returns (events, m')
    /\ (dataHandler_size lower q <= 0 -> events = [])
    /\ (0 < dataHandler_size lower q ->
        events
        = ResponseWriter_Write (pattern (dataHandler_size lower q))
          :: match failure tr with
             | Some e => [http_Error e 500]
             | None =>
                 if (dataHandler_size lower q <=? Z.of_nat (taken tr))
                 then []
                 else [http_Error "short write" 500]
             end).
Proof.
  intros Hq Hreach Hatt.
  destruct (dataHandler_spec lower choice tr r q m Hq Hreach)
    as (b & m1 & events & m' & Hfill & Hbytes & Hrun & _ & _).
  exists events, m'. split; [done|].
  rewrite (dataHandler_after_fill _ _ _ _ _ _ _ Hq Hfill) in Hrun.
  rewrite bool_decide_eq_false_2 in Hrun by done.
  pose proof (io_Copy_cases tr b m1 _ Hbytes) as Hcases.
  pose proof (pattern_length_max (dataHandler_size lower q)) as Hlen.
  destruct (io_Copy tr b m1) as [[evs e] m2]. simpl in Hcases.
  split.
  - intros Hle.
    destruct (Nat.ltb_spec 0 (length (pattern (dataHandler_size lower q))));
      [lia|].
    injection Hcases as -> ->. by injection Hrun as <- _.
  - intros Hpos.
    destruct (Nat.ltb_spec 0 (length (pattern (dataHandler_size lower q))));
      [|lia].
    injection Hcases as -> ->.
    destruct (failure tr) as [msg|]; [by injection Hrun as <- _|].
    destruct (Nat.leb_spec (length (pattern (dataHandler_size lower q)))
                (taken tr));
      destruct (Z.leb_spec (dataHandler_size lower q) (Z.of_nat (taken tr)));
      try lia; by injection Hrun as <- _.
Qed.

End DataRoute.

Lemma X6_witness :
  (exists (b : ptr) (events : list Event) (m' : Mem),
     dataHandler (fun s => s) None (mkTransport 2 (Some "broken pipe"%string))
       (mkRequest "GET" (Some (sizeUnitQuery "1" "kb")) []) Mem_init
     = Returns (events, m')
     /\ head (bufferPool m') = Some b
     /\ Len b m' = Some 0%nat
     /\ (forall p, p <> b -> heap m' !! p = heap Mem_init !! p)
     /\ (length (bufferPool Mem_init) <= length (bufferPool m')
         <= S (length (bufferPool Mem_init)))%nat
     /\ reachable m')
  /\ dataHandler (fun s => s) None (mkTransport 2 None)
       (mkRequest "GET" None []) Mem_init
     = Panics "runtime error: invalid memory address or nil pointer dereference".
Proof.
  split.
  - exact (X6_dataHandler_returns_its_buffer (fun s => s) None
             (mkTransport 2 (Some "broken pipe"%string))
             (mkRequest "GET" (Some (sizeUnitQuery "1" "kb")) []) Mem_init
             reach_init).
  - exact (X6_dataHandler_returns_its_buffer (fun s => s) None
             (mkTransport 2 None) (mkRequest "GET" None []) Mem_init
             reach_init).
Defined.

Lemma X7_witness :
  exists (events : list Event) (m' : Mem),
    dataHandler (fun s => s) None (mkTransport 0 None)
      (mkRequest "GET"
         (Some (<["attachment"%string := ["T"%string]]> (sizeUnitQuery "6" "")))
         [])
      Mem_init
    = Returns (events, m')
    /\ (Values_Get (<["attachment"%string := ["T"%string]]> (sizeUnitQuery "6" ""))
          "attachment"
          ∈ ["1"; "t"; "T"; "true"; "TRUE"; "True"]%string ->
        events = [Header_Add "Content-Disposition" "Attachment";
                  http_ServeContent "data.txt"
                    (pattern (dataHandler_size (fun s => s)
                       (<["attachment"%string := ["T"%string]]>
                          (sizeUnitQuery "6" ""))))])
    /\ (Values_Get (<["attachment"%string := ["T"%string]]> (sizeUnitQuery "6" ""))
          "attachment"
          ∉ ["1"; "t"; "T"; "true"; "TRUE"; "True"]%string ->
        forall e, e ∈ events ->
          e = ResponseWriter_Write
                (pattern (dataHandler_size (fun s => s)
                   (<["attachment"%string := ["T"%string]]>
                      (sizeUnitQuery "6" ""))))
          \/ exists msg, e = http_Error msg 500).
Proof.
  apply (X7_attachment_toggle (fun s => s) None (mkTransport 0 None)
           (mkRequest "GET"
              (Some (<["attachment"%string := ["T"%string]]>
                       (sizeUnitQuery "6" "")))
              [])
           (<["attachment"%string := ["T"%string]]> (sizeUnitQuery "6" ""))
           Mem_init).
  - reflexivity.
  - apply reach_init.
Defined.

Lemma X8_witness :
  exists (events : list Event) (m' : Mem),
    dataHandler (fun s => s) None (mkTransport 3 None)
      (mkRequest "GET" (Some (sizeUnitQuery "8" "")) []) Mem_init
    = Returns (events, m')
    /\ (dataHandler_size (fun s => s) (sizeUnitQuery "8" "") <= 0 -> events = [])
    /\ (0 < dataHandler_size (fun s => s) (sizeUnitQuery "8" "") ->
        events
        = ResponseWriter_Write
            (pattern (dataHandler_size (fun s => s) (sizeUnitQuery "8" "")))
          :: match failure (mkTransport 3 None) with
             | Some e => [http_Error e 500]
             | None =>
                 if (dataHandler_size (fun s => s) (sizeUnitQuery "8" "")
                     <=? Z.of_nat (taken (mkTransport 3 None)))
                 then []
                 else [http_Error "short write" 500]
             end).
Proof.
  apply (X8_inline_copy_outcomes (fun s => s) None (mkTransport 3 None)
           (mkRequest "GET" (Some (sizeUnitQuery "8" "")) [])
           (sizeUnitQuery "8" "") Mem_init).
  - reflexivity.
  - apply reach_init.
  - intros Hin. apply (bool_decide_pack _) in Hin. vm_compute in Hin. exact Hin.
Defined.

Example dataHandler_short_write :
  (fun r => r.1) <$>
    returned (dataHandler (fun s => s) None (mkTransport 3 None)
                (mkRequest "GET" (Some (sizeUnitQuery "8" "")) []) Mem_init)
  = Some [ResponseWriter_Write (String.list_byte_of_string "|ABCDEF|");
          http_Error "short write" 500].
Proof. vm_compute. reflexivity. Qed.

(** ** The health route as a register *)

Section HealthRoute.

Variable decode : list byte -> Z + string.

Lemma serve_app (pre post : list Request) (st : healthState) :
  serve decode (pre ++ post) st
  = ((serve decode pre st).1 ++ (serve decode post (serve decode pre st).2).1,
     (serve decode post (serve decode pre st).2).2).
Proof.
  revert st. induction pre as [|r pre IH]; intros st; simpl.
  - by destruct (serve decode post st).
  - destruct (healthHandler decode r st) as [ev st1]. rewrite IH.
    by destruct (serve decode pre st1), (serve decode post _).
Qed.

Lemma serve_length (reqs : list Request) (st : healthState) :
  length (serve decode reqs st).1 = length reqs.
Proof.
  revert st. induction reqs as [|r reqs IH]; intros st; simpl; [done|].
  destruct (healthHandler decode r st) as [ev st1]. specialize (IH st1).
  destruct (serve decode reqs st1). simpl in *. by rewrite IH.
Qed.

Lemma serve_final_state (reqs : list Request) :
  forall st,
    StatusCode (serve decode reqs st).2
    = default (StatusCode st) (last (codesWritten decode reqs)).
Proof.
  induction reqs as [|r reqs IH] using rev_ind; intros st; [done|].
  rewrite serve_app. simpl. unfold codesWritten. rewrite omap_app. simpl.
  fold (codesWritten decode reqs). specialize (IH st).
  unfold healthHandler.
  destruct (String.eqb (Method r) "POST").
  - destruct (decode (Body r)) as [code|err]; simpl.
    + by rewrite last_snoc.
    + by rewrite app_nil_r.
  - simpl. by rewrite app_nil_r.
Qed.

(** X9: The health state behaves as a register. At any point of any run a
    read is answered with the code of the latest write that decoded, or
    with the code the run started from when there was none; and the run
    ends in that state. *)
Theorem X9_read_answers_latest_write
  (pre post : list Request) (get : Request) (st : healthState) :
  Method get <> "POST"%string ->
  (serve decode (pre ++ get :: post) st).1 !! length pre
  = Some [WriteHeader (default (StatusCode st) (last (codesWritten decode pre)))]
  /\ StatusCode (serve decode (pre ++ get :: post) st).2
     = default (StatusCode st) (last (codesWritten decode (pre ++ get :: post))).
Proof.
  intros Hget. split; [|apply serve_final_state].
  rewrite serve_app. cbn [fst].
  rewrite lookup_app_r by (rewrite serve_length; lia).
  rewrite serve_length, Nat.sub_diag. simpl.
  unfold healthHandler at 1. apply String.eqb_neq in Hget. rewrite Hget.
  destruct (serve decode post _). simpl. by rewrite serve_final_state.
Qed.

(** X10: A write that does not decode is invisible to everyone else: taking it
    out of a run changes neither the answers to the other requests nor the
    final state. *)
Theorem X10_failed_write_is_invisible
  (pre post : list Request) (bad : Request) (err : string) (st : healthState) :
  Method bad = "POST"%string -> decode (Body bad) = inr err ->
  (serve decode (pre ++ bad :: post) st).1
  = take (length pre) (serve decode (pre ++ post) st).1
    ++ [http_Error err 400]
    :: drop (length pre) (serve decode (pre ++ post) st).1
  /\ (serve decode (pre ++ bad :: post) st).2 = (serve decode (pre ++ post) st).2.
Proof.
  intros Hpost Hdec. rewrite !serve_app. cbn [fst snd].
  rewrite take_app_length', drop_app_length' by (by rewrite serve_length).
  cbn [serve]. unfold healthHandler. rewrite Hpost, Hdec. simpl.
  by destruct (serve decode post _).
Qed.

End HealthRoute.

Lemma X9_witness :
  (serve decodeDecimal
     ([mkRequest "POST" (Some ∅) (String.list_byte_of_string "503");
       mkRequest "POST" (Some ∅) (String.list_byte_of_string "oops");
       mkRequest "POST" (Some ∅) (String.list_byte_of_string "418")]
      ++ mkRequest "HEAD" (Some ∅) [] :: [mkRequest "POST" (Some ∅) (String.list_byte_of_string "200")])
     currentHealthState_init).1
  !! length [mkRequest "POST" (Some ∅) (String.list_byte_of_string "503");
             mkRequest "POST" (Some ∅) (String.list_byte_of_string "oops");
             mkRequest "POST" (Some ∅) (String.list_byte_of_string "418")]
  = Some [WriteHeader
            (default (StatusCode currentHealthState_init)
               (last (codesWritten decodeDecimal
                        [mkRequest "POST" (Some ∅) (String.list_byte_of_string "503");
                         mkRequest "POST" (Some ∅) (String.list_byte_of_string "oops");
                         mkRequest "POST" (Some ∅) (String.list_byte_of_string "418")])))].
Proof.
  apply (X9_read_answers_latest_write decodeDecimal
           [mkRequest "POST" (Some ∅) (String.list_byte_of_string "503");
            mkRequest "POST" (Some ∅) (String.list_byte_of_string "oops");
            mkRequest "POST" (Some ∅) (String.list_byte_of_string "418")]
           [mkRequest "POST" (Some ∅) (String.list_byte_of_string "200")]
           (mkRequest "HEAD" (Some ∅) []) currentHealthState_init).
  discriminate.
Defined.

Lemma X10_witness :
  (serve decodeDecimal
     ([mkRequest "POST" (Some ∅) (String.list_byte_of_string "503")]
      ++ mkRequest "POST" (Some ∅) (String.list_byte_of_string "5o3")
      :: [mkRequest "GET" (Some ∅) []])
     currentHealthState_init).2
  = (serve decodeDecimal
       ([mkRequest "POST" (Some ∅) (String.list_byte_of_string "503")]
        ++ [mkRequest "GET" (Some ∅) []])
       currentHealthState_init).2.
Proof.
  apply (X10_failed_write_is_invisible decodeDecimal
           [mkRequest "POST" (Some ∅) (String.list_byte_of_string "503")]
           [mkRequest "GET" (Some ∅) []]
           (mkRequest "POST" (Some ∅) (String.list_byte_of_string "5o3"))
           "invalid character"%string currentHealthState_init);
    reflexivity.
Defined.

(** ** Bounds of the counters *)

Lemma sum_le_length (f : Caller -> Z) (k : Z) (l : list Caller) :
  (forall c, c ∈ l -> 0 <= f c <= k) ->
  0 <= sumZ f l <= k * Z.of_nat (length l).
Proof.
  induction l as [|c l IH]; intros Hf; simpl sumZ; simpl length; [lia|].
  assert (0 <= f c <= k) by (apply Hf; by left).
  assert (0 <= sumZ f l <= k * Z.of_nat (length l))
    by (apply IH; intros c0 Hc0; apply Hf; by right).
  lia.
Qed.

Lemma inFlight_bounds (M K : nat) (sched : list nat) :
  0 <= inFlight (run sched (Metrics_init M K)) <= Z.of_nat M.
Proof.
  destruct (reachable_Inv M K sched) as (Hlen & _ & -> & _).
  set (w := run sched (Metrics_init M K)) in *.
  unfold sumOver. rewrite <- Hlen.
  replace (Z.of_nat (length (callers w)))
    with (1 * Z.of_nat (length (callers w))) by lia.
  apply sum_le_length. intros c _. unfold inFlightOf. destruct (at_point c); lia.
Qed.

Lemma total_bounds (M K : nat) (sched : list nat) :
  0 <= total (run sched (Metrics_init M K)) <= Z.of_nat K * Z.of_nat M.
Proof.
  destruct (reachable_Inv M K sched) as (Hlen & Hok & _ & -> & _).
  set (w := run sched (Metrics_init M K)) in *.
  unfold sumOver. rewrite <- Hlen. apply sum_le_length.
  intros c Hc. rewrite Forall_forall in Hok. destruct (Hok c Hc) as [_ Hk].
  unfold countedOf, inFlightOf in *. destruct (at_point c); lia.
Qed.

Lemma step_total_monotone (t : nat) (w : Metrics) :
  total w <= total (ServeHTTP_step t w).
Proof.
  unfold ServeHTTP_step, total.
  destruct (callers w !! t) as [c|]; [|lia].
  destruct (at_point c); simpl; try lia. destruct (todo c); simpl; lia.
Qed.

Lemma run_total_monotone (sched : list nat) :
  forall w, total w <= total (run sched w).
Proof.
  induction sched as [|t sched IH]; intros w; [simpl; lia|].
  rewrite run_cons. pose proof (step_total_monotone t w).
  pose proof (IH (ServeHTTP_step t w)). lia.
Qed.

(** Every value handed to [Update] is a number of requests in flight at
    that moment: at least 1, at most the number of callers; and there is
    one such value for each completed start. *)
Lemma updates_bounds (M K : nat) (sched : list nat) :
  Forall (fun a => 1 <= a <= Z.of_nat M) (updates (run sched (Metrics_init M K)))
  /\ Forall (fun c => forall k, pending c = Some k -> 1 <= k <= Z.of_nat M)
       (callers (run sched (Metrics_init M K)))
  /\ completedStarts (run sched (Metrics_init M K))
     = Z.of_nat (length (updates (run sched (Metrics_init M K)))).
Proof.
  induction sched as [|t sched IH] using rev_ind.
  { split; [constructor|]. split.
    - apply Forall_replicate. by intros k.
    - unfold completedStarts, sumOver. simpl.
      rewrite (sum_constant _ 0); [lia|]. by apply Forall_replicate. }
  pose proof (inFlight_bounds M K sched) as Hcur.
  pose proof (inFlight_bounds M K (sched ++ [t])) as Hnew.
  rewrite run_snoc in *. set (w := run sched (Metrics_init M K)) in *.
  destruct IH as (Hupd & Hpend & Hcount).
  unfold ServeHTTP_step in *.
  destruct (callers w !! t) as [c|] eqn:Ht; [|done].
  pose proof (Forall_lookup_1 _ _ _ _ Hpend Ht) as Hcp.
  unfold completedStarts, sumOver, inFlight in *.
  destruct c as [pt td st fn]. simpl in *.
  destruct pt as [|k|k| |]; simpl in *.
  - destruct td as [|td]; [done|]. simpl in *.
    split; [done|]. split.
    + apply Forall_insert; [done|]. intros k [= <-]. lia.
    + rewrite (sum_insert _ _ _ _ _ Ht); simpl; lia.
  - split; [done|]. split; [by apply Forall_insert|].
    rewrite (sum_insert _ _ _ _ _ Ht); simpl; lia.
  - split; [constructor; [by apply Hcp|done]|].
    split; [by apply Forall_insert|].
    rewrite (sum_insert _ _ _ _ _ Ht). simpl. lia.
  - split; [done|]. split; [by apply Forall_insert|].
    rewrite (sum_insert _ _ _ _ _ Ht); simpl; lia.
  - split; [done|]. split; [by apply Forall_insert|].
    rewrite (sum_insert _ _ _ _ _ Ht); simpl; lia.
Qed.

Lemma updateAll_range (lo hi : Z) (cs : list Z) :
  forall v, lo <= MaxValue v <= hi -> Forall (fun a => lo <= a <= hi) cs ->
    lo <= MaxValue (updateAll v cs) <= hi.
Proof.
  unfold updateAll. induction cs as [|c cs IH]; intros v Hv Hcs; [done|].
  apply Forall_cons in Hcs as [Hc Hcs]. simpl. apply IH; [|done].
  rewrite expvarMaxInt_Update_max. lia.
Qed.

(** X11: Under every interleaving of [M] callers serving [K] requests each:
    the in-flight counter stays between 0 and [M], the total between 0
    and [K * M] and never decreases, the maximum between 0 and [M]; the
    maximum is 0 exactly as long as no start has completed; and every
    value passed to [Update] lies between 1 and [M]. *)
Theorem X11_counters_stay_in_bounds (M K : nat) (sched more : list nat) :
  0 <= inFlight (run sched (Metrics_init M K)) <= Z.of_nat M
  /\ 0 <= total (run sched (Metrics_init M K)) <= Z.of_nat K * Z.of_nat M
  /\ total (run sched (Metrics_init M K))
     <= total (run (sched ++ more) (Metrics_init M K))
  /\ 0 <= maxInFlight (run sched (Metrics_init M K)) <= Z.of_nat M
  /\ (maxInFlight (run sched (Metrics_init M K)) = 0
      <-> completedStarts (run sched (Metrics_init M K)) = 0)
  /\ Forall (fun a => 1 <= a <= Z.of_nat M)
       (updates (run sched (Metrics_init M K))).
Proof.
  destruct (updates_bounds M K sched) as (Hupd & _ & Hcount).
  pose proof (max_is_updateAll M K sched) as Hmax.
  split; [apply inFlight_bounds|]. split; [apply total_bounds|].
  split; [unfold run; rewrite fold_left_app; apply run_total_monotone|].
  unfold maxInFlight. rewrite Hmax, Hcount.
  destruct (updates (run sched (Metrics_init M K))) as [|a rest].
  { simpl. split; [lia|]. split; [done|constructor]. }
  assert (Hrange : 1 <= MaxValue (updateAll (mkExpvarMaxInt 0) (rev (a :: rest)))
                   <= Z.of_nat M).
  { simpl rev. unfold updateAll. rewrite fold_left_app. simpl.
    rewrite expvarMaxInt_Update_max.
    pose proof Hupd as [Ha Hrest]%Forall_cons.
    assert (0 <= MaxValue (updateAll (mkExpvarMaxInt 0) (rev rest)) <= Z.of_nat M).
    { apply updateAll_range; [simpl; lia|]. apply Forall_rev.
      eapply Forall_impl; [exact Hrest|]. simpl. lia. }
    unfold updateAll in *. lia. }
  split; [lia|]. split; [|done]. simpl length. lia.
Qed.

Lemma X11_witness :
  0 <= inFlight (run [0; 1; 0; 0]%nat (Metrics_init 2 1)) <= Z.of_nat 2
  /\ 0 <= total (run [0; 1; 0; 0]%nat (Metrics_init 2 1))
     <= Z.of_nat 1 * Z.of_nat 2.
Proof.
  pose proof (X11_counters_stay_in_bounds 2 1 [0; 1; 0; 0]%nat []) as H.
  split; apply H.
Defined.

(** ** The middleware, one request at a time *)

Lemma ServeHTTP_counters {S R : Type} (nextHandler : S -> outcome (R * S))
  (s : S) (c : Counters) :
  (ServeHTTP nextHandler s c).1 = nextHandler s
  /\ Value (concurrent (ServeHTTP nextHandler s c).2) = Value (concurrent c)
  /\ Value (totalCount (ServeHTTP nextHandler s c).2) = Value (totalCount c) + 1
  /\ MaxValue (maxConcurrent (ServeHTTP nextHandler s c).2)
     = Z.max (MaxValue (maxConcurrent c)) (Value (concurrent c) + 1).
Proof.
  unfold ServeHTTP, onHandleRequestStart, onHandleRequestFinish. simpl.
  rewrite expvarMaxInt_Update_max. repeat split; lia.
Qed.

(** The five actions of a caller, each on an explicit state. *)
Lemma step_at_Idle (t : nat) (conc tot : expvarInt) (mx : expvarMaxInt)
  (cs : list Caller) (pk : Z) (ups : list Z) (k st fn : nat) :
  cs !! t = Some (mkCaller Idle (Datatypes.S k) st fn) ->
  ServeHTTP_step t (mkMetrics conc tot mx cs pk ups)
  = mkMetrics (mkExpvarInt (Value conc + 1)) tot mx
      (<[t := mkCaller (Started (Value conc + 1)) k st fn]> cs)
      (Z.max pk (Value conc + 1)) ups.
Proof. intros Ht. unfold ServeHTTP_step. cbn [callers]. by rewrite Ht. Qed.

Lemma step_at_Started (t : nat) (conc tot : expvarInt) (mx : expvarMaxInt)
  (cs : list Caller) (pk : Z) (ups : list Z) (count : Z) (k st fn : nat) :
  cs !! t = Some (mkCaller (Started count) k st fn) ->
  ServeHTTP_step t (mkMetrics conc tot mx cs pk ups)
  = mkMetrics conc (mkExpvarInt (Value tot + 1)) mx
      (<[t := mkCaller (Counted count) k st fn]> cs) pk ups.
Proof. intros Ht. unfold ServeHTTP_step. cbn [callers]. by rewrite Ht. Qed.

Lemma step_at_Counted (t : nat) (conc tot : expvarInt) (mx : expvarMaxInt)
  (cs : list Caller) (pk : Z) (ups : list Z) (count : Z) (k st fn : nat) :
  cs !! t = Some (mkCaller (Counted count) k st fn) ->
  ServeHTTP_step t (mkMetrics conc tot mx cs pk ups)
  = mkMetrics conc tot (expvarMaxInt_Update mx count)
      (<[t := mkCaller Handling k (Datatypes.S st) fn]> cs) pk (count :: ups).
Proof. intros Ht. unfold ServeHTTP_step. cbn [callers]. by rewrite Ht. Qed.

Lemma step_at_Handling (t : nat) (conc tot : expvarInt) (mx : expvarMaxInt)
  (cs : list Caller) (pk : Z) (ups : list Z) (k st fn : nat) :
  cs !! t = Some (mkCaller Handling k st fn) ->
  ServeHTTP_step t (mkMetrics conc tot mx cs pk ups)
  = mkMetrics conc tot mx (<[t := mkCaller Deferred k st fn]> cs) pk ups.
Proof. intros Ht. unfold ServeHTTP_step. cbn [callers]. by rewrite Ht. Qed.

Lemma step_at_Deferred (t : nat) (conc tot : expvarInt) (mx : expvarMaxInt)
  (cs : list Caller) (pk : Z) (ups : list Z) (k st fn : nat) :
  cs !! t = Some (mkCaller Deferred k st fn) ->
  ServeHTTP_step t (mkMetrics conc tot mx cs pk ups)
  = mkMetrics (mkExpvarInt (Value conc + -1)) tot mx
      (<[t := mkCaller Idle k st (Datatypes.S fn)]> cs)
      (Z.max pk (Value conc + -1)) ups.
Proof. intros Ht. unfold ServeHTTP_step. cbn [callers]. by rewrite Ht. Qed.

(** One request through the middleware is the five actions of a caller of
    the interleaved model taken in one go: the counters end the same. *)
Lemma five_actions_are_ServeHTTP {S R : Type}
  (nextHandler : S -> outcome (R * S)) (s : S)
  (w : Metrics) (t : nat) (c : Caller) (k : nat) :
  callers w !! t = Some c -> at_point c = Idle -> todo c = Datatypes.S k ->
  countersOf (run [t; t; t; t; t] w) = (ServeHTTP nextHandler s (countersOf w)).2
  /\ callers (run [t; t; t; t; t] w)
     = <[t := mkCaller Idle k (Datatypes.S (starts c)) (Datatypes.S (finishes c))]>
         (callers w).
Proof.
  intros Ht Hidle Htodo. destruct c as [pt td st fn].
  cbn [at_point todo starts finishes] in *. subst pt td.
  destruct w as [conc tot mx cs pk ups]. cbn [callers] in Ht.
  assert (Hlt : (t < length cs)%nat) by (by eapply lookup_lt_Some).
  assert (Hhere : forall (c' : Caller) (l : list Caller),
            length l = length cs -> <[t := c']> l !! t = Some c').
  { intros c' l Hl. apply list_lookup_insert_eq. lia. }
  unfold run. cbn [fold_left].
  rewrite (step_at_Idle t conc tot mx cs pk ups k st fn Ht).
  erewrite step_at_Started by (by apply Hhere).
  erewrite step_at_Counted by (apply Hhere; by rewrite length_insert).
  erewrite step_at_Handling by (apply Hhere; by rewrite !length_insert).
  erewrite step_at_Deferred by (apply Hhere; by rewrite !length_insert).
  cbn [callers]. rewrite !list_insert_insert_eq. split; [|done].
  unfold countersOf, ServeHTTP, onHandleRequestStart, onHandleRequestFinish.
  cbn [expvarInt_Add concurrent totalCount maxConcurrent concurrentRequestCount
       totalRequestCount maxConcurrentRequestCount snd Value].
  reflexivity.
Qed.

(** X12: With metrics enabled, a request served while no other is under way
    adds one to the total, leaves the in-flight counter where it was, also
    when the handler panics, and raises the maximum to at least one more
    than the in-flight count; the handler's outcome is passed on unchanged.
    With metrics disabled the counters are not touched. Served one after
    the other from the start, [n] requests leave a total of [n], nothing
    in flight and a maximum of 1 (0 for no request), and in the
    interleaved model the five actions of one caller have the same effect
    as one such request. *)
Theorem X12_requests_one_at_a_time :
  (forall (S R : Type) (handler : S -> outcome (R * S)) (s : S) (c : Counters),
     (wrapHandler true handler s c).1 = handler s
     /\ Value (concurrent (wrapHandler true handler s c).2) = Value (concurrent c)
     /\ Value (totalCount (wrapHandler true handler s c).2)
        = Value (totalCount c) + 1
     /\ MaxValue (maxConcurrent (wrapHandler true handler s c).2)
        = Z.max (MaxValue (maxConcurrent c)) (Value (concurrent c) + 1)
     /\ wrapHandler false handler s c = (handler s, c))
  /\ (forall (S R : Type) (handler : S -> outcome (R * S)) (s : S) (n : nat),
        Value (concurrent
                 (Nat.iter n (fun c => (wrapHandler true handler s c).2)
                    Counters_zero)) = 0
        /\ Value (totalCount
                    (Nat.iter n (fun c => (wrapHandler true handler s c).2)
                       Counters_zero)) = Z.of_nat n
        /\ MaxValue (maxConcurrent
                       (Nat.iter n (fun c => (wrapHandler true handler s c).2)
                          Counters_zero)) = Z.min 1 (Z.of_nat n))
  /\ (forall (S R : Type) (handler : S -> outcome (R * S)) (s : S)
        (w : Metrics) (t : nat) (c : Caller) (k : nat),
        callers w !! t = Some c -> at_point c = Idle -> todo c = Datatypes.S k ->
        countersOf (run [t; t; t; t; t] w)
        = (wrapHandler true handler s (countersOf w)).2).
Proof.
  split.
  { intros S R handler s c. unfold wrapHandler. simpl.
    destruct (ServeHTTP_counters handler s c) as (H1 & H2 & H3 & H4).
    by repeat split. }
  split.
  { intros S R handler s n. induction n as [|n (IH1 & IH2 & IH3)]; [done|].
    rewrite Nat.iter_succ. unfold wrapHandler at 1 3 5. simpl negb. cbv iota.
    destruct (ServeHTTP_counters handler s
                (Nat.iter n (fun c => (wrapHandler true handler s c).2)
                   Counters_zero)) as (_ & H2 & H3 & H4).
    rewrite H2, H3, H4, IH1, IH2, IH3. repeat split; lia. }
  intros S R handler s w t c k Ht Hidle Htodo.
  by destruct (five_actions_are_ServeHTTP handler s w t c k Ht Hidle Htodo).
Qed.

Lemma X12_witness :
  countersOf (run [1; 1; 1; 1; 1]%nat (Metrics_init 2 3))
  = (wrapHandler true (fun s : unit => Panics (A := unit * unit) "boom") tt
       (countersOf (Metrics_init 2 3))).2.
Proof.
  apply (proj2 (proj2 X12_requests_one_at_a_time) unit unit
           (fun s : unit => Panics (A := unit * unit) "boom") tt
           (Metrics_init 2 3) 1%nat (mkCaller Idle 3 0 0) 2%nat);
    reflexivity.
Defined.

(** ** The echo route *)

Lemma append_assoc' (a b c : string) : (a +:+ b) +:+ c = a +:+ (b +:+ c).
Proof.
  induction a as [|x a IH]; [done|].
  change (String x ((a +:+ b) +:+ c) = String x (a +:+ (b +:+ c))).
  by rewrite IH.
Qed.

Lemma length_append' (a b : string) :
  String.length (a +:+ b) = (String.length a + String.length b)%nat.
Proof.
  induction a as [|x a IH]; [done|].
  change (Datatypes.S (String.length (a +:+ b))
          = Datatypes.S (String.length a + String.length b)).
  by rewrite IH.
Qed.

(** Reading back one printed byte: the field before the first comma. *)
Lemma readFields_formatByte (b : byte) (rest : string) :
  readFields (formatByte b +:+ "," +:+ rest) EmptyString
  = (if readFields rest EmptyString is Some bs then Some (b :: bs) else None).
Proof. destruct b; reflexivity. Qed.

Lemma readFields_printBinary_for (s : list byte) :
  readFields (printBinary_for s +:+ newline) EmptyString = Some s.
Proof.
  induction s as [|b s IH]; [done|].
  cbn [printBinary_for]. rewrite !append_assoc'.
  rewrite readFields_formatByte.
  by rewrite IH.
Qed.

Lemma length_formatByte (b : byte) :
  (1 <= String.length (formatByte b) <= 3)%nat.
Proof. destruct b; vm_compute; lia. Qed.

Lemma length_printBinary_for (s : list byte) :
  (2 * length s <= String.length (printBinary_for s) <= 4 * length s)%nat.
Proof.
  induction s as [|b s IH]; [cbn; lia|].
  cbn [printBinary_for length]. rewrite !length_append'.
  pose proof (length_formatByte b). cbn [String.length]. lia.
Qed.

(** X13 (printBinary): the line printed for a message determines its
    bytes: two messages that print the same are the same.  A message of
    [n] bytes prints between [12 + 2 n] and [12 + 4 n] characters. *)
Theorem X13_printed_line_determines_the_bytes :
  (forall s s' : list byte, printBinary s = printBinary s' -> s = s')
  /\ (forall s : list byte,
        (12 + 2 * length s <= String.length (printBinary s)
         <= 12 + 4 * length s)%nat).
Proof.
  split.
  - intros s s' Heq. unfold printBinary in Heq.
    apply (String.app_inj "Received b:") in Heq.
    assert (H : Some s = Some s'); [|by injection H].
    by rewrite <- (readFields_printBinary_for s),
               <- (readFields_printBinary_for s'), Heq.
  - intros s. unfold printBinary. rewrite !length_append'.
    pose proof (length_printBinary_for s).
    change (String.length "Received b:") with 11%nat.
    change (String.length newline) with 1%nat. lia.
Qed.

Lemma X13_witness :
  printBinary [x01; x0a; xff] = "Received b:1,10,255," +:+ newline
  /\ [x01; x0a; xff] = [x01; x0a; xff].
Proof.
  split; [reflexivity|].
  apply (proj1 X13_printed_line_determines_the_bytes). reflexivity.
Defined.

Lemma echoHandler_for_app (pre : list ConnEvent) (e : ConnEvent)
  (post : list ConnEvent) :
  breaksOff e = true ->
  echoHandler_for (pre ++ e :: post) = echoHandler_for (pre ++ [e]).
Proof.
  intros He. induction pre as [|[mt p [|]|] pre IH]; cbn [app echoHandler_for].
  - destruct e as [mt p we|]; [|done]. cbn [breaksOff] in He. by subst we.
  - done.
  - by rewrite IH.
  - done.
Qed.

Lemma writesOf_echo (mt : Z) (p : list byte) (more : list EchoEvent) :
  writesOf ([stdout_Write (printBinary p); conn_WriteMessage mt p] ++ more)
  = (mt, p) :: writesOf more.
Proof. reflexivity. Qed.

Lemma messagesOf_cons (mt : Z) (p : list byte) (we : bool)
  (script : list ConnEvent) :
  messagesOf (conn_Message mt p we :: script) = (mt, p) :: messagesOf script.
Proof. reflexivity. Qed.

(** X14 (echoHandler): the handler writes back the messages it reads, in
    order, each once and each after its line on the standard output; it
    returns exactly when a read or a write fails, whatever the connection
    would have done after that; until then every message read has been
    written back.  When the upgrade fails it logs the error and writes
    nothing. *)
Theorem X14_echo_writes_back_what_it_reads (script : list ConnEvent) :
  writesOf (echoHandler None script).1 `prefix_of` messagesOf script
  /\ (echoHandler None script).1
     = concat ((fun m => [stdout_Write (printBinary m.2);
                          conn_WriteMessage m.1 m.2])
               <$> writesOf (echoHandler None script).1)
  /\ (echoHandler None script).2 = existsb breaksOff script
  /\ ((echoHandler None script).2 = false ->
      writesOf (echoHandler None script).1 = messagesOf script)
  /\ (forall (e : ConnEvent) (more : list ConnEvent),
        breaksOff e = true ->
        echoHandler None (script ++ e :: more) = echoHandler None (script ++ [e])
        /\ (echoHandler None (script ++ [e])).2 = true)
  /\ (forall err : string,
        echoHandler (Some err) script = ([log_Println err], true)).
Proof.
  cbn [echoHandler]. repeat split.
  - induction script as [|[mt p [|]|] script IH]; cbn [echoHandler_for].
    + done.
    + rewrite messagesOf_cons. apply prefix_cons, prefix_nil.
    + destruct (echoHandler_for script) as [more ret]. cbn [fst] in *.
      rewrite writesOf_echo, messagesOf_cons. by apply prefix_cons.
    + apply prefix_nil.
  - induction script as [|[mt p [|]|] script IH]; cbn [echoHandler_for].
    + done.
    + done.
    + destruct (echoHandler_for script) as [more ret]. cbn [fst] in *.
      rewrite writesOf_echo, fmap_cons. cbn [concat fst snd].
      by rewrite <- IH.
    + done.
  - induction script as [|[mt p [|]|] script IH]; cbn [echoHandler_for].
    + done.
    + done.
    + destruct (echoHandler_for script) as [more ret].
      cbn [snd existsb breaksOff orb] in *. done.
    + done.
  - induction script as [|[mt p [|]|] script IH]; cbn [echoHandler_for].
    + done.
    + done.
    + destruct (echoHandler_for script) as [more ret]. cbn [fst snd] in *.
      intros Hret. by rewrite writesOf_echo, messagesOf_cons, (IH Hret).
    + done.
  - by apply echoHandler_for_app.
  - rename H into He. induction script as [|[mt p [|]|] script IH];
      cbn [app echoHandler_for].
    + destruct e as [mt p we|]; [|done]. cbn [breaksOff] in He. by subst we.
    + done.
    + destruct (echoHandler_for (script ++ [e])) as [evs ret].
      cbn [snd] in *. done.
    + done.
Qed.

Lemma X14_witness :
  writesOf (echoHandler None [conn_Message 1 [x68; x69] false;
                              conn_Message 2 [] false]).1
  = messagesOf [conn_Message 1 [x68; x69] false;
                conn_Message 2 [] false].
Proof.
  apply (X14_echo_writes_back_what_it_reads
           [conn_Message 1 [x68; x69] false;
            conn_Message 2 [] false]).
  reflexivity.
Defined.

(** ** The identity route *)

Lemma length_omap_le {A B : Type} (f : A -> option B) (l : list A) :
  (length (omap f l) <= length l)%nat.
Proof.
  induction l as [|x l IH]; [done|].
  change (omap f (x :: l))
    with (if f x is Some y then y :: omap f l else omap f l).
  destruct (f x); cbn [length]; lia.
Qed.

Section WhoamiRoute.

Variable IP_String : option (list byte) -> string.
Variable ParseDuration : string -> option Z.

(** What a request of the identity route gets when the host information
    in the package variable is [info]. *)
Lemma whoamiServe_once (reqs : list WhoamiRequest) (info : string) :
  (whoamiServe IP_String ParseDuration reqs (mkHostInfo info true)).2
  = mkHostInfo info true
  /\ Forall2 (fun q out =>
       match whoamiURL q with
       | Some params =>
           out = Returns
             ((if 0 <? len (Values_Get params "wait")
               then (if ParseDuration (Values_Get params "wait") is Some d
                     then [time_Sleep d] else [])
               else [])
              ++ [fmt_Fprint info;
                  fmt_Fprint ("RemoteAddr: " +:+ RemoteAddr q +:+ newline);
                  Request_Write]
              ++ (if writeError q is Some e then [whoami_http_Error e 500]
                  else []))
       | None =>
           out = Panics
             "runtime error: invalid memory address or nil pointer dereference"
       end)
       reqs (whoamiServe IP_String ParseDuration reqs (mkHostInfo info true)).1.
Proof.
  induction reqs as [|q reqs [IH1 IH2]]; [by split|].
  cbn [whoamiServe]. unfold whoamiHandler at 1 2.
  destruct (whoamiURL q) as [params|] eqn:Hq;
    cbn [URL_Query hostInfoOnce hostInfo];
    destruct (whoamiServe IP_String ParseDuration reqs (mkHostInfo info true))
      as [evs st]; cbn [fst snd] in *; (split; [done|]);
    constructor; try done; by rewrite Hq.
Qed.

(** As long as no request has a URL that parses again, every handler
    panics and the host information stays unset. *)
Lemma whoamiServe_nil_URLs (pre : list WhoamiRequest) (st : HostInfo) :
  Forall (fun q => whoamiURL q = None) pre ->
  whoamiServe IP_String ParseDuration pre st
  = ((fun _ => Panics
        "runtime error: invalid memory address or nil pointer dereference")
       <$> pre, st).
Proof.
  induction 1 as [|q pre Hq _ IH]; [done|].
  cbn [whoamiServe]. unfold whoamiHandler. rewrite Hq. cbn [URL_Query].
  by rewrite IH.
Qed.

Lemma whoamiServe_app (pre post : list WhoamiRequest) (st : HostInfo) :
  whoamiServe IP_String ParseDuration (pre ++ post) st
  = ((whoamiServe IP_String ParseDuration pre st).1
     ++ (whoamiServe IP_String ParseDuration post
           (whoamiServe IP_String ParseDuration pre st).2).1,
     (whoamiServe IP_String ParseDuration post
        (whoamiServe IP_String ParseDuration pre st).2).2).
Proof.
  revert st. induction pre as [|q pre IH]; intros st.
  - cbn [app whoamiServe fst snd].
    by destruct (whoamiServe IP_String ParseDuration post st).
  - cbn [app whoamiServe].
    destruct (whoamiHandler IP_String ParseDuration q st) as [[ev st']| |];
      rewrite IH;
      by destruct (whoamiServe IP_String ParseDuration pre _).
Qed.

(** X15 (whoamiHandler, hostInfoOnce): the host information is worked out
    once, by the first request that gets as far as [hostInfoOnce.Do], and
    never again.  With the requests in the order in which they reach that
    call: a request whose URL does not parse again panics on the nil
    [*url.URL] and prints nothing, and as long as there has been no other
    request the host information stays unset; from the first request whose
    URL parses again onwards, every answer prints the host information of
    the host as it was at that request, followed by the caller's own
    remote address and the request, and the run ends with that host
    information stored.  A request sleeps first exactly when its [wait] is
    not empty and parses as a duration; an unparsable [wait] is ignored. *)
Theorem X15_host_info_is_computed_once
  (pre : list WhoamiRequest) (r : WhoamiRequest) (reqs : list WhoamiRequest) :
  Forall (fun q => whoamiURL q = None) pre ->
  is_Some (whoamiURL r) ->
  whoamiServe IP_String ParseDuration pre HostInfo_init
  = ((fun _ => Panics
        "runtime error: invalid memory address or nil pointer dereference")
       <$> pre, HostInfo_init)
  /\ (whoamiServe IP_String ParseDuration (pre ++ r :: reqs) HostInfo_init).2
     = mkHostInfo (writeHostInfo IP_String (host r)) true
  /\ Forall2 (fun q out =>
       match whoamiURL q with
       | Some params =>
           out = Returns
             ((if 0 <? len (Values_Get params "wait")
               then (if ParseDuration (Values_Get params "wait") is Some d
                     then [time_Sleep d] else [])
               else [])
              ++ [fmt_Fprint (writeHostInfo IP_String (host r));
                  fmt_Fprint ("RemoteAddr: " +:+ RemoteAddr q +:+ newline);
                  Request_Write]
              ++ (if writeError q is Some e then [whoami_http_Error e 500]
                  else []))
       | None =>
           out = Panics
             "runtime error: invalid memory address or nil pointer dereference"
       end)
       (pre ++ r :: reqs)
       (whoamiServe IP_String ParseDuration (pre ++ r :: reqs) HostInfo_init).1.
Proof.
  intros Hpre [params Hr].
  pose proof (whoamiServe_nil_URLs pre HostInfo_init Hpre) as Hnil.
  split; [done|].
  rewrite whoamiServe_app, Hnil. cbn [fst snd].
  assert (Hstep : whoamiServe IP_String ParseDuration (r :: reqs) HostInfo_init
                  = (Returns
                       ((if 0 <? len (Values_Get params "wait")
                         then (if ParseDuration (Values_Get params "wait") is Some d
                               then [time_Sleep d] else [])
                         else [])
                        ++ [fmt_Fprint (writeHostInfo IP_String (host r));
                            fmt_Fprint ("RemoteAddr: " +:+ RemoteAddr r +:+ newline);
                            Request_Write]
                        ++ (if writeError r is Some e then [whoami_http_Error e 500]
                            else []))
                     :: (whoamiServe IP_String ParseDuration reqs
                           (mkHostInfo (writeHostInfo IP_String (host r)) true)).1,
                     (whoamiServe IP_String ParseDuration reqs
                        (mkHostInfo (writeHostInfo IP_String (host r)) true)).2)).
  { cbn [whoamiServe]. unfold whoamiHandler at 1, HostInfo_init.
    rewrite Hr. cbn [URL_Query hostInfoOnce hostInfo].
    by destruct (whoamiServe IP_String ParseDuration reqs
                   (mkHostInfo (writeHostInfo IP_String (host r)) true)). }
  rewrite Hstep. cbn [fst snd].
  destruct (whoamiServe_once reqs (writeHostInfo IP_String (host r)))
    as [H1 H2].
  split; [done|].
  apply Forall2_app.
  - clear -Hpre. induction Hpre as [|q pre Hq _ IH]; [constructor|].
    rewrite fmap_cons. constructor; [by rewrite Hq|done].
  - constructor; [by rewrite Hr|done].
Qed.

Lemma apiHandler_IP_inner (ips : list string) (addrs : list Addr) :
  foldl (fun ips addr =>
           if ipOf addr is Some ip then ips ++ [IP_String (Some ip)] else ips)
        ips addrs
  = ips ++ ((fun ip => IP_String (Some ip)) <$> omap ipOf addrs).
Proof.
  revert ips. induction addrs as [|a addrs IH]; intros ips.
  - by rewrite app_nil_r.
  - cbn [foldl]. rewrite IH.
    change (omap ipOf (a :: addrs))
      with (if ipOf a is Some ip then ip :: omap ipOf addrs
            else omap ipOf addrs).
    destruct (ipOf a) as [ip|]; [|done].
    by rewrite fmap_cons, <- app_assoc.
Qed.

Lemma apiHandler_IP_outer (ips : list string) (ifaces : list (list Addr)) :
  foldl (fun ips addrs =>
           foldl (fun ips addr =>
                    if ipOf addr is Some ip then ips ++ [IP_String (Some ip)]
                    else ips)
                 ips addrs)
        ips ifaces
  = ips ++ ((fun ip => IP_String (Some ip)) <$> omap ipOf (concat ifaces)).
Proof.
  revert ips. induction ifaces as [|addrs ifaces IH]; intros ips.
  - by rewrite app_nil_r.
  - cbn [foldl concat]. rewrite IH, apiHandler_IP_inner, omap_app, fmap_app.
    by rewrite <- app_assoc.
Qed.

Lemma writeHostInfo_lines (ifaces : list (list Addr)) :
  foldr (fun addrs text =>
           foldr (fun addr text =>
                    "IP: " +:+ IP_String (ipOf addr) +:+ newline +:+ text)
                 text addrs)
        EmptyString ifaces
  = foldr (fun addr text =>
             "IP: " +:+ IP_String (ipOf addr) +:+ newline +:+ text)
          EmptyString (concat ifaces).
Proof.
  induction ifaces as [|addrs ifaces IH]; [done|].
  cbn [foldr concat]. by rewrite foldr_app, IH.
Qed.

(** X16 (writeHostInfo, apiHandler): both routes walk the addresses of the
    interfaces in order, interface by interface.  The identity route
    prints one [IP:] line for every address, also for one that carries no
    IP; the API route lists the IPs of the addresses that carry one and
    leaves the others out, so it never lists more than the identity route
    prints. *)
Theorem X16_addresses_in_interface_order (h : Host) :
  writeHostInfo IP_String h
  = "Hostname: " +:+ os_Hostname h +:+ newline
    +:+ foldr (fun addr text =>
                 "IP: " +:+ IP_String (ipOf addr) +:+ newline +:+ text)
              EmptyString (concat (net_Interfaces h))
  /\ apiHandler_IP IP_String h
     = (fun ip => IP_String (Some ip)) <$> omap ipOf (concat (net_Interfaces h))
  /\ (length (apiHandler_IP IP_String h)
      <= length (concat (net_Interfaces h)))%nat.
Proof.
  assert (Hapi : apiHandler_IP IP_String h
                 = (fun ip => IP_String (Some ip))
                   <$> omap ipOf (concat (net_Interfaces h))).
  { unfold apiHandler_IP. by rewrite apiHandler_IP_outer. }
  split; [|split; [done|]].
  - unfold writeHostInfo. by rewrite writeHostInfo_lines.
  - rewrite Hapi, length_fmap. apply length_omap_le.
Qed.

End WhoamiRoute.

Lemma X15_witness :
  (whoamiServe (fun _ => "ip"%string) (fun _ => None)
     ([mkWhoamiRequest (mkHost "alpha" [[OtherAddr]]) None "10.0.0.7:4711" None]
      ++ mkWhoamiRequest (mkHost "beta" [[IPNet None]]) (Some ∅)
           "10.0.0.8:4712" None
         :: [mkWhoamiRequest (mkHost "gamma" []) (Some ∅) "10.0.0.9:4713" None])
     HostInfo_init).2
  = mkHostInfo
      (writeHostInfo (fun _ => "ip"%string) (mkHost "beta" [[IPNet None]])) true.
Proof.
  refine (proj1 (proj2
            (X15_host_info_is_computed_once (fun _ => "ip"%string) (fun _ => None)
               [mkWhoamiRequest (mkHost "alpha" [[OtherAddr]]) None
                  "10.0.0.7:4711" None]
               (mkWhoamiRequest (mkHost "beta" [[IPNet None]]) (Some ∅)
                  "10.0.0.8:4712" None)
               [mkWhoamiRequest (mkHost "gamma" []) (Some ∅) "10.0.0.9:4713" None]
               _ _))).
  - constructor; [reflexivity|constructor].
  - eexists. reflexivity.
Defined.
